(** * A shallow embedding of the RAG proof-of-concept pipeline

    The development follows the TypeScript sources:

    - [vectorUtils]: [dotProduct], [magnitude], [cosineSimilarity];
    - [DatabaseAdapter]: the JSON-file record store;
    - [EmbeddingService]: single and chunked embedding, [findMostSimilar];
    - [DocumentProcessorService]: [processPdf] and [findRelevantContent].

    Modelling conventions.

    - A JavaScript [number] is an IEEE 754 binary64 value: Rocq's primitive
      [float], with [Math.sqrt] as [PrimFloat.sqrt], [===] on numbers as
      [PrimFloat.eqb] and [>=] as [PrimFloat.leb] with swapped operands.
    - Lengths, loop counters and the chunking parameters are integers.
    - A JavaScript string is a [string]; one character of the model stands
      for one code unit.
    - [throw] and [try]/[catch] are modelled by the [Completion] type.
      [console] output is not modelled.
    - Stored values are plain JSON data: an object has its own properties
      only, and [hasOwnProperty] is the built-in method.
    - The file system, [crypto.randomUUID] and the order of the calls made
      on them are carried by an explicit [World]; the embedding provider, the
      PDF reader and [path.basename] are parameters. *)

From Stdlib Require Import PrimFloat ZArith Lia Ascii.
From stdpp Require Import base option list strings gmap.

Set Default Proof Using "Type".
Set Warnings "-register-all".

(** ** Completions *)

(** How the evaluation of a JavaScript expression or call ends: with a value,
    with a thrown [Error] (we keep its message), or not within the number of
    loop iterations the model was given. *)
Inductive Completion (A : Type) : Type :=
| Returned (a : A)
| Thrown (message : string)
| Unfinished.

Arguments Returned {A} a.
Arguments Thrown {A} message.
Arguments Unfinished {A}.

#[global] Instance Completion_ret : MRet Completion := fun A a => Returned a.

#[global] Instance Completion_bind : MBind Completion := fun A B k c =>
  match c with
  | Returned a => k a
  | Thrown e => Thrown e
  | Unfinished => Unfinished
  end.

(** [try { body } catch (error) { handler }] *)
Definition try_catch {A} (body : Completion A) (handler : string -> Completion A)
  : Completion A :=
  match body with
  | Thrown e => handler e
  | other => other
  end.

(** [for (let i = 0; i < n; i++) { acc = body acc i }] *)
Definition for_index {S : Type} (n : nat) (body : S -> nat -> S) (init : S) : S :=
  fold_left body (seq 0 n) init.

(** ** src/lib/vectorUtils.ts *)

Module vectorUtils.

#[local] Open Scope float_scope.

(** [vec[i]] used as a number: past the end the read gives [undefined],
    which arithmetic turns into [NaN]. *)
Definition at_index (vec : list float) (i : nat) : float := nth i vec nan.

Definition dotProduct (vecA vecB : list float) : Completion float :=
  if negb (Nat.eqb (length vecA) (length vecB)) then
    Thrown "Vectors must have the same dimension for dot product."
  else
    Returned (for_index (length vecA)
                (fun product i => product + at_index vecA i * at_index vecB i) 0).

Definition magnitude (vec : list float) : float :=
  let sumOfSquares :=
    for_index (length vec)
      (fun sumOfSquares i => sumOfSquares + at_index vec i * at_index vec i) 0 in
  sqrt sumOfSquares.

Definition cosineSimilarity (vecA vecB : list float) : Completion float :=
  try_catch
    (let magA := magnitude vecA in
     let magB := magnitude vecB in
     if (magA =? 0) || (magB =? 0) || negb (Nat.eqb (length vecA) (length vecB))
     then Returned 0
     else
       dot ← dotProduct vecA vecB;
       Returned (dot / (magA * magB)))
    (fun error => Returned 0).

End vectorUtils.

(** ** JavaScript values

    The data handed to the record store and read back from its files: what
    JSON text denotes. An object keeps its own properties in insertion
    order. Writing a value with [JSON.stringify] and reading it again with
    [JSON.parse] is taken to give the value back. *)
Inductive JSValue : Type :=
| JNull
| JBool (b : bool)
| JNum (x : float)
| JStr (s : string)
| JArr (items : list JSValue)
| JObj (props : list (string * JSValue)).

(** [typeof v === 'object' && v !== null] *)
Definition is_object (v : JSValue) : bool :=
  match v with
  | JArr _ | JObj _ => true
  | _ => false
  end.

Definition Array_isArray (v : JSValue) : bool :=
  match v with
  | JArr _ => true
  | _ => false
  end.

Definition is_string (v : JSValue) : bool :=
  match v with
  | JStr _ => true
  | _ => false
  end.

Fixpoint assoc_get (key : string) (props : list (string * JSValue)) : option JSValue :=
  match props with
  | [] => None
  | (k, v) :: rest => if String.eqb k key then Some v else assoc_get key rest
  end.

Fixpoint assoc_set (key : string) (v : JSValue) (props : list (string * JSValue))
  : list (string * JSValue) :=
  match props with
  | [] => [(key, v)]
  | (k, old) :: rest =>
      if String.eqb k key then (k, v) :: rest else (k, old) :: assoc_set key v rest
  end.

(** [v.key] (or [v[key]]) for a non-index key: [None] stands for [undefined]. *)
Definition get_prop (v : JSValue) (key : string) : option JSValue :=
  match v with
  | JObj props => assoc_get key props
  | _ => None
  end.

(** [key in v] and [v.hasOwnProperty(key)], for a non-index key other than
    [length]; on plain data the two agree. *)
Definition has_prop (v : JSValue) (key : string) : bool :=
  match get_prop v key with
  | Some _ => true
  | None => false
  end.

(** [{ ...data, key: v }] *)
Definition spread_with (data : JSValue) (key : string) (v : JSValue) : JSValue :=
  match data with
  | JObj props => JObj (assoc_set key v props)
  | _ => JObj [(key, v)]
  end.

(** [haystack.includes(needle)] *)
Fixpoint includes (needle haystack : string) : bool :=
  String.prefix needle haystack
  || match haystack with
     | EmptyString => false
     | String _ rest => includes needle rest
     end.

(** ** The world outside the program *)

(** What a file holds, as [_readTable] tells the cases apart. *)
Inductive FileContent : Type :=
| Blank                      (* [fileContent.trim() === ''] *)
| Malformed                  (* [JSON.parse] throws *)
| Json (document : JSValue). (* [JSON.parse] yields [document] *)

Inductive Call : Type :=
| ReadFile (path : string)
| WriteFile (path : string) (data : list JSValue)
| Embed (value : string).

(** [files] maps a path (relative to the database directory) to the content
    of the file; a path outside its domain has no file ([ENOENT]).
    [uuid_source n] is what the [n]-th call of [crypto.randomUUID] returns.
    [calls] lists the calls made on the table files and on the embedding
    provider, oldest first.
    Failures of the file system other than a missing file are not modelled. *)
Record World : Type := mkWorld {
  files : gmap string FileContent;
  uuid_source : nat -> string;
  uuids_drawn : nat;
  calls : list Call
}.

(** An [async] function: a computation on the world. The awaits of the
    source are sequential, so are the binds. *)
Definition M (A : Type) : Type := World -> Completion A * World.

#[global] Instance M_ret : MRet M := fun A a w => (Returned a, w).

#[global] Instance M_bind : MBind M := fun A B k c w =>
  match c w with
  | (Returned a, w') => k a w'
  | (Thrown e, w') => (Thrown e, w')
  | (Unfinished, w') => (Unfinished, w')
  end.

Definition throw {A} (message : string) : M A := fun w => (Thrown message, w).

Definition lift {A} (c : Completion A) : M A := fun w => (c, w).

(** [try { body } catch (error) { handler }] around awaited code. *)
Definition try_catchM {A} (body : M A) (handler : string -> M A) : M A := fun w =>
  match body w with
  | (Thrown e, w') => handler e w'
  | other => other
  end.

Definition crypto_randomUUID : M string := fun w =>
  (Returned (uuid_source w (uuids_drawn w)),
   mkWorld (files w) (uuid_source w) (S (uuids_drawn w)) (calls w)).

(** [fs.readFile(path, 'utf-8')]: [None] is the [ENOENT] error. *)
Definition fs_readFile (path : string) : M (option FileContent) := fun w =>
  (Returned (files w !! path),
   mkWorld (files w) (uuid_source w) (uuids_drawn w) (calls w ++ [ReadFile path])).

(** [fs.writeFile(path, JSON.stringify(data, null, 2), 'utf-8')] *)
Definition fs_writeFile (path : string) (data : list JSValue) : M unit := fun w =>
  (Returned tt,
   mkWorld (<[path := Json (JArr data)]> (files w)) (uuid_source w) (uuids_drawn w)
     (calls w ++ [WriteFile path data])).

(** ** src/lib/DatabaseAdapter.ts *)

Module DatabaseAdapter.

Definition backslash : string := String (Ascii.ascii_of_nat 92) EmptyString.
Definition dquote : string := String (Ascii.ascii_of_nat 34) EmptyString.

(** The path is kept relative to the database directory, which never
    changes. *)
Definition _getFilePath (tableName : string) : Completion string :=
  if String.eqb tableName EmptyString
     || includes "/" tableName
     || includes backslash tableName
     || includes ".." tableName
  then Thrown ("Invalid table name provided: " +:+ dquote +:+ tableName +:+ dquote
               +:+ ". Must be a valid filename component.")
  else Returned (tableName +:+ ".json").

Definition _readTable (tableName : string) : M (list JSValue) :=
  filePath ← lift (_getFilePath tableName);
  fileContent ← fs_readFile filePath;
  match fileContent with
  | None => mret []                       (* ENOENT: an empty table *)
  | Some Blank => mret []
  | Some Malformed => mret []             (* the parse error is caught *)
  | Some (Json (JArr data)) => mret data
  | Some (Json _) => mret []              (* not an array *)
  end.

Definition _writeTable (tableName : string) (data : list JSValue) : M unit :=
  filePath ← lift (_getFilePath tableName);
  fs_writeFile filePath data.

Definition insert (tableName : string) (data : JSValue) : M JSValue :=
  if negb (is_object data) || Array_isArray data then
    throw "Data to insert must be an object."
  else if has_prop data "id" then
    throw "Input data should not contain an 'id' property; it will be generated."
  else
    tableData ← _readTable tableName;
    id ← crypto_randomUUID;
    let newRecord := spread_with data "id" (JStr id) in
    let tableData := tableData ++ [newRecord] in
    _writeTable tableName tableData;;
    mret newRecord.

(** The body of [for (const data of dataArray)], on what is left of the
    array. *)
Fixpoint insertMany_loop (dataArray tableData newRecords : list JSValue)
  : M (list JSValue * list JSValue) :=
  match dataArray with
  | [] => mret (tableData, newRecords)
  | data :: rest =>
      if negb (is_object data) || Array_isArray data then
        insertMany_loop rest tableData newRecords        (* continue *)
      else if has_prop data "id" then
        insertMany_loop rest tableData newRecords        (* continue *)
      else
        id ← crypto_randomUUID;
        let newRecord := spread_with data "id" (JStr id) in
        insertMany_loop rest (tableData ++ [newRecord]) (newRecords ++ [newRecord])
  end.

Definition insertMany (tableName : string) (dataArray : JSValue) : M (list JSValue) :=
  match dataArray with
  | JArr items =>
      tableData ← _readTable tableName;
      '(tableData, newRecords) ← insertMany_loop items tableData [];
      (if Nat.ltb 0 (length newRecords)
       then _writeTable tableName tableData
       else mret tt);;
      mret newRecords
  | _ => throw "Input data must be an array of objects."
  end.

(** [r.id === id] for a string [id] *)
Definition id_is (id : string) (r : JSValue) : bool :=
  match get_prop r "id" with
  | Some (JStr s) => String.eqb s id
  | _ => false
  end.

(** The result is [None] where the source returns [null]. *)
Definition getById (tableName : string) (id : string) : M (option JSValue) :=
  if String.eqb id EmptyString then mret None
  else
    tableData ← _readTable tableName;
    let record :=
      List.find (fun r => is_object r && has_prop r "id" && id_is id r) tableData in
    mret record.

Definition has_string_id (r : JSValue) : bool :=
  match get_prop r "id" with
  | Some v => is_string v
  | None => false
  end.

Definition getAll (tableName : string) : M (list JSValue) :=
  tableData ← _readTable tableName;
  let validRecords :=
    List.filter (fun r => is_object r && has_prop r "id" && has_string_id r) tableData in
  mret validRecords.

End DatabaseAdapter.

(** ** String helpers *)

(** [s.substring(indexStart, indexEnd)]: both indices are clamped to the
    string and swapped when out of order. *)
Definition js_substring (s : string) (indexStart indexEnd : Z) : string :=
  let len := Z.of_nat (String.length s) in
  let a := Z.min (Z.max indexStart 0) len in
  let b := Z.min (Z.max indexEnd 0) len in
  String.substring (Z.to_nat (Z.min a b)) (Z.to_nat (Z.max a b - Z.min a b)) s.

(** White space and line terminators, among the code units the model has. *)
Definition is_white_space (c : Ascii.ascii) : bool :=
  let n := Ascii.nat_of_ascii c in
  (Nat.leb 9 n && Nat.leb n 13) || Nat.eqb n 32 || Nat.eqb n 160.

Fixpoint trimStart (s : string) : string :=
  match s with
  | EmptyString => EmptyString
  | String c rest => if is_white_space c then trimStart rest else s
  end.

Definition trim (s : string) : string :=
  String.rev (trimStart (String.rev (trimStart s))).

(** ** src/services/EmbeddingService.ts *)

Module EmbeddingService.

Section WithModel.

(** The remote embedding call [embed({ model, value })] of the SDK,
    for the model the service was built with. *)
Variable embed : string -> Completion (list float).

Definition call_embed (value : string) : M (list float) := fun w =>
  (embed value,
   mkWorld (files w) (uuid_source w) (uuids_drawn w) (calls w ++ [Embed value])).

Definition generateEmbedding (value : string) : M (list float) :=
  if String.eqb value EmptyString then mret []
  else
    try_catchM (call_embed value)
      (fun error => throw ("Failed to generate embedding: " +:+ error)).

(** [for (let i = 0; i < value.length; i += chunkSize - overlap)], from
    the loop test on; [fuel] bounds the number of tests. *)
Fixpoint chunk_loop (fuel : nat) (value : string) (chunkSize overlap : Z)
    (i : Z) (chunks : list string) : Completion (list string) :=
  match fuel with
  | O => Unfinished
  | S fuel =>
      if (i <? Z.of_nat (String.length value))%Z then
        chunk_loop fuel value chunkSize overlap (i + (chunkSize - overlap))%Z
          (chunks ++ [js_substring value i (i + chunkSize)])
      else Returned chunks
  end.

Fixpoint embed_loop (chunks : list string) (results : list (string * list float))
  : M (list (string * list float)) :=
  match chunks with
  | [] => mret results
  | chunk :: rest =>
      embedding ← call_embed chunk;
      embed_loop rest (results ++ [(chunk, embedding)])
  end.

Definition generateEmbeddings (fuel : nat) (value : string) (chunkSize overlap : Z)
  : M (list (string * list float)) :=
  if String.eqb value EmptyString then mret []
  else
    chunks ← lift (chunk_loop fuel value chunkSize overlap 0 []);
    if Nat.eqb (length chunks) 0 then mret []
    else
      try_catchM (embed_loop chunks [])
        (fun error => throw ("Failed to generate embeddings: " +:+ error)).

End WithModel.

Definition default_chunkSize : Z := 500.
Definition default_overlap : Z := 50.

Section Ranking.

(** [findMostSimilar] reads one field of a record, [record.embedding],
    and returns records as it got them. [None] is a missing embedding. *)
Context {EmbeddingRecord : Type}.
Variable embedding : EmbeddingRecord -> option (list float).

Definition SIMILARITY_THRESHOLD : float := 0.5%float.

(** [for (const record of storedEmbeddings)], on what is left of the
    array. *)
Fixpoint findMostSimilar_loop (queryVector : list float)
    (storedEmbeddings similarityResults : list EmbeddingRecord)
  : Completion (list EmbeddingRecord) :=
  match storedEmbeddings with
  | [] => Returned similarityResults
  | record :: rest =>
      match embedding record with
      | None => findMostSimilar_loop queryVector rest similarityResults
      | Some recordEmbedding =>
          if negb (Nat.eqb (length recordEmbedding) (length queryVector)) then
            findMostSimilar_loop queryVector rest similarityResults
          else
            similarity ← vectorUtils.cosineSimilarity queryVector recordEmbedding;
            if PrimFloat.leb SIMILARITY_THRESHOLD similarity then
              findMostSimilar_loop queryVector rest (similarityResults ++ [record])
            else
              findMostSimilar_loop queryVector rest similarityResults
      end
  end.

(** The result is [None] where the source returns [null]. *)
Definition findMostSimilar (queryVector : list float)
    (storedEmbeddings : list EmbeddingRecord)
  : Completion (option (list EmbeddingRecord)) :=
  if Nat.eqb (length queryVector) 0 || Nat.eqb (length storedEmbeddings) 0 then
    Returned None
  else
    similarityResults ← findMostSimilar_loop queryVector storedEmbeddings [];
    Returned (Some similarityResults).

End Ranking.

End EmbeddingService.

(** ** src/services/DocumentProcessorService.ts *)

Module DocumentProcessorService.

Definition RESOURCES_TABLE : string := "resources".
Definition EMBEDDINGS_TABLE : string := "embeddings".

Record SearchServiceResult : Type := { chunks : list JSValue }.

Record ProcessPdfResult : Type := { resource : JSValue; embeddingsCount : nat }.

(** An entry of a stored [embedding] array used as a number. The interface
    declares [number[]]; [null] and the booleans convert as JavaScript
    converts them. Text, arrays and objects convert through their string
    form, which is not modelled: they are read as [NaN]. *)
Definition to_number (v : JSValue) : float :=
  match v with
  | JNum x => x
  | JNull => 0%float
  | JBool true => 1%float
  | JBool false => 0%float
  | _ => nan
  end.

(** [record.embedding] of a record that passed the guard of
    [findRelevantContent]. *)
Definition embedding (record : JSValue) : option (list float) :=
  match get_prop record "embedding" with
  | Some (JArr items) => Some (map to_number items)
  | _ => None
  end.

Definition prop_is_string (r : JSValue) (key : string) : bool :=
  match get_prop r key with
  | Some v => is_string v
  | None => false
  end.

Definition prop_is_array (r : JSValue) (key : string) : bool :=
  match get_prop r key with
  | Some v => Array_isArray v
  | None => false
  end.

(** The type guard [(r): r is EmbeddingRecord => ...] *)
Definition is_EmbeddingRecord (r : JSValue) : bool :=
  is_object r && prop_is_string r "resourceId" && prop_is_string r "contentChunk"
  && prop_is_array r "embedding".

(** [{ resourceId: resource.id, contentChunk: ce.content, embedding:
    ce.embedding }]; a property whose value is [undefined] is not written
    to the file and is left out here. *)
Definition embeddingRecordToInsert (resource : JSValue) (ce : string * list float)
  : JSValue :=
  JObj (match get_prop resource "id" with
        | Some id => [("resourceId", id)]
        | None => []
        end
        ++ [("contentChunk", JStr (fst ce)); ("embedding", JArr (map JNum (snd ce)))]).

Section WithCollaborators.

Context {Buffer : Type}.
Variable embed : string -> Completion (list float).
(** [fs.readFile(pdfFilePath)], [pdfParse(fileBuffer)] with the [text]
    field of its result, and [path.basename]. *)
Variable readFile : string -> Completion Buffer.
Variable pdfParse : Buffer -> Completion string.
Variable path_basename : string -> string.

Definition processPdf (pdfFilePath : string) : M ProcessPdfResult :=
  fileBuffer ← try_catchM (lift (readFile pdfFilePath))
    (fun error => throw ("Could not read PDF file: " +:+ error));
  fullTextContent ← try_catchM (lift (pdfParse fileBuffer))
    (fun error => throw ("Could not parse PDF content: " +:+ error));
  if String.eqb fullTextContent EmptyString
     || Nat.eqb (String.length (trim fullTextContent)) 0
  then throw "PDF contains no text content."
  else
    resource ← DatabaseAdapter.insert RESOURCES_TABLE
      (JObj [("content", JStr fullTextContent);
             ("sourceFile", JStr (path_basename pdfFilePath))]);
    (* with the default parameters the chunking loop tests its condition
       at most [length + 1] times *)
    chunkEmbeddings ← EmbeddingService.generateEmbeddings embed
      (S (String.length fullTextContent)) fullTextContent
      EmbeddingService.default_chunkSize EmbeddingService.default_overlap;
    if Nat.eqb (length chunkEmbeddings) 0 then
      mret {| resource := resource; embeddingsCount := 0 |}
    else
      let embeddingRecordsToInsert :=
        map (embeddingRecordToInsert resource) chunkEmbeddings in
      insertedEmbeddings ← DatabaseAdapter.insertMany EMBEDDINGS_TABLE
        (JArr embeddingRecordsToInsert);
      mret {| resource := resource; embeddingsCount := length insertedEmbeddings |}.

(** The result is [None] where the source returns [null]. *)
Definition findRelevantContent (userQuery : string) : M (option SearchServiceResult) :=
  queryVector ← EmbeddingService.generateEmbedding embed userQuery;
  if Nat.eqb (length queryVector) 0 then mret None
  else
    allStoredEmbeddings ← DatabaseAdapter.getAll EMBEDDINGS_TABLE;
    let validStoredEmbeddings := List.filter is_EmbeddingRecord allStoredEmbeddings in
    if Nat.eqb (length validStoredEmbeddings) 0 then mret None
    else
      matchedChunks ← lift (EmbeddingService.findMostSimilar embedding
                              queryVector validStoredEmbeddings);
      match matchedChunks with
      | None => mret None
      | Some [] => mret None
      | Some matched => mret (Some {| chunks := matched |})
      end.

End WithCollaborators.

End DocumentProcessorService.

(** ** src/main.ts *)

Module Main.

Section WithModel.

Variable embed : string -> Completion (list float).

(** The search of [main]; the PDF processing is commented out in the source.
    What [main] prints is not modelled. *)
Definition main : M unit :=
  try_catchM
    (let searchQuery := "Diamond Minimum Color" in
     searchResult ← DocumentProcessorService.findRelevantContent embed searchQuery;
     mret tt)
    (fun error => mret tt).

End WithModel.

End Main.

(** ** Vocabulary of the statements *)

(** The sum [dotProduct] accumulates, without its dimension check. *)
Definition dot_sum (a b : list float) : float :=
  for_index (length a)
    (fun product i =>
       (product + vectorUtils.at_index a i * vectorUtils.at_index b i)%float) 0%float.

(** The cosine similarity as the documentation of [cosineSimilarity] gives
    it. *)
Definition similarity (a b : list float) : float :=
  if negb (Nat.eqb (length a) (length b))
     || PrimFloat.eqb (vectorUtils.magnitude a) 0
     || PrimFloat.eqb (vectorUtils.magnitude b) 0
  then 0%float
  else (dot_sum a b / (vectorUtils.magnitude a * vectorUtils.magnitude b))%float.

(** A record whose embedding is present, has the length of the query vector
    and is at least [SIMILARITY_THRESHOLD] similar to it. *)
Definition reaches_threshold {R : Type} (embedding : R -> option (list float))
    (queryVector : list float) (record : R) : bool :=
  match embedding record with
  | Some e =>
      Nat.eqb (length e) (length queryVector)
      && PrimFloat.leb EmbeddingService.SIMILARITY_THRESHOLD (similarity queryVector e)
  | None => false
  end.

(** The records a table holds: the elements of the array in its file. *)
Definition rows (w : World) (tableName : string) : list JSValue :=
  match files w !! (tableName +:+ ".json") with
  | Some (Json (JArr data)) => data
  | _ => []
  end.

Definition valid_table_name (tableName : string) : bool :=
  negb (String.eqb tableName EmptyString
        || includes "/" tableName
        || includes DatabaseAdapter.backslash tableName
        || includes ".." tableName).

(** The world after one more call. *)
Definition logged (c : Call) (w : World) : World :=
  mkWorld (files w) (uuid_source w) (uuids_drawn w) (calls w ++ [c]).

(** An input [insert] accepts and [insertMany] does not skip: a non-null
    object that is no array and has no [id] property. *)
Definition insertable (data : JSValue) : bool :=
  is_object data && negb (Array_isArray data) && negb (has_prop data "id").

(** The records made of [items] with the identifiers [source n],
    [source (n + 1)], ... in this order. *)
Fixpoint with_ids (source : nat -> string) (n : nat) (items : list JSValue)
  : list JSValue :=
  match items with
  | [] => []
  | data :: rest => spread_with data "id" (JStr (source n)) :: with_ids source (S n) rest
  end.


(** Sample worlds for the examples. *)
Definition sample_uuid (n : nat) : string :=
  "00000000-0000-4000-8000-00000000000"
  +:+ String (Ascii.ascii_of_nat (48 + n mod 10)) EmptyString.

Definition empty_world : World := mkWorld ∅ sample_uuid 0 [].

(** The quotient of [a] by [b] rounded up, for a positive [b]. *)
Definition ceil_div (a b : Z) : Z := (a + b - 1) / b.

(** The chunks taken at [i], [i + step], ..., [count] of them. *)
Definition chunks_from (value : string) (chunkSize step i : Z) (count : nat)
  : list string :=
  map (fun k : nat =>
         js_substring value (i + Z.of_nat k * step) (i + Z.of_nat k * step + chunkSize))
    (seq 0 count).

(** A text of [n] times the character [c], for the examples. *)
Fixpoint text_of (n : nat) (c : ascii) : string :=
  match n with
  | O => EmptyString
  | S n => String c (text_of n c)
  end.

(** The records [getAll] keeps: objects with an [id] that is a string. *)
Definition stored_record (r : JSValue) : bool :=
  is_object r && has_prop r "id" && DatabaseAdapter.has_string_id r.


(** Sample data for the examples: two stored chunks, of similarity 0.6 and
    1 to the query vector [(1, 0)], and a provider that answers every text
    with this vector. *)
Definition chunk_record (id text : string) (e : list float) : JSValue :=
  JObj [("resourceId", JStr "resource"); ("contentChunk", JStr text);
        ("embedding", JArr (map JNum e)); ("id", JStr id)].

Definition record_34 : JSValue := chunk_record "first" "three four" [3%float; 4%float].
Definition record_10 : JSValue := chunk_record "second" "one zero" [1%float; 0%float].

Definition two_chunk_world : World :=
  mkWorld {[ "embeddings.json" := Json (JArr [record_34; record_10]) ]} sample_uuid 0 [].

Definition sample_embed (value : string) : Completion (list float) :=
  Returned [1%float; 0%float].



(** The chunks of a text under the default parameters. *)
Definition default_chunks (value : string) : list string :=
  chunks_from value 500 450 0
    (Z.to_nat (ceil_div (Z.of_nat (String.length value)) 450)).

(** The embedding record stored for a chunk and its vector. *)
Definition stored_chunk (resourceId : string) (ce : string * list float) (id : string)
  : JSValue :=
  JObj [("resourceId", JStr resourceId); ("contentChunk", JStr (fst ce));
        ("embedding", JArr (map JNum (snd ce))); ("id", JStr id)].

(** Sample collaborators for the examples: every file is read, and parsed
    to the given text. *)
Definition sample_readFile (path : string) : Completion unit := Returned tt.
Definition sample_pdfParse (text : string) (fileBuffer : unit) : Completion string :=
  Returned text.
Definition sample_basename (path : string) : string := path.




(** The message of the error [_getFilePath] throws. *)
Definition invalid_table_name_message (tableName : string) : string :=
  "Invalid table name provided: " +:+ DatabaseAdapter.dquote +:+ tableName
  +:+ DatabaseAdapter.dquote +:+ ". Must be a valid filename component.".

(** A sample provider that fails on the text "bc" and answers every other
    text. *)
Definition failing_embed (value : string) : Completion (list float) :=
  if String.eqb value "bc" then Thrown "quota" else Returned [1%float; 0%float].

(** The text put together again from its chunks: the first chunk, then
    every later chunk without its first [overlap] characters
    ([chunk.substring(overlap)]). *)
Definition without_overlap (overlap : Z) (chunks : list string) : string :=
  match chunks with
  | [] => EmptyString
  | first :: rest =>
      first +:+ fold_right String.append EmptyString
                  (map (fun chunk =>
                          js_substring chunk overlap (Z.of_nat (String.length chunk)))
                     rest)
  end.

(** The characters of [value] from position [a] up to position [b]. *)
Definition sub_range (value : string) (a b : Z) : string :=
  String.substring (Z.to_nat a) (Z.to_nat (b - a)) value.

(** * Properties *)

(** ** The model at work *)

(** The result is the binary64 number nearest to 0.6. *)
Example cosineSimilarity_3_4 :
  vectorUtils.cosineSimilarity [1%float; 0%float] [3%float; 4%float]
  = Returned 0x1.3333333333333p-1%float.
Proof. reflexivity. Qed.

Example cosineSimilarity_mismatch :
  vectorUtils.cosineSimilarity [1%float] [3%float; 4%float] = Returned 0%float
  /\ exists message, vectorUtils.dotProduct [1%float] [3%float; 4%float] = Thrown message.
Proof. split; [reflexivity | eexists; reflexivity]. Qed.

Example table_names :
  valid_table_name "embeddings" = true /\ valid_table_name "a/b" = false
  /\ valid_table_name "up..dir" = false /\ valid_table_name "" = false.
Proof. repeat split. Qed.

Example substring_clamps :
  js_substring "abcdef" 4 10 = "ef" /\ js_substring "abcdef" 3 1 = "bc"
  /\ js_substring "abcdef" (-2) 2 = "ab".
Proof. repeat split. Qed.

Example trim_sample : trim "  a b  " = "a b" /\ trim "   " = "".
Proof. split; reflexivity. Qed.

Example insert_then_search_tables :
  rows (snd (DatabaseAdapter.insert "resources" (JObj [("content", JStr "text")])
               empty_world)) "resources"
  = [JObj [("content", JStr "text"); ("id", JStr (sample_uuid 0))]].
Proof. reflexivity. Qed.

(** C8: [cosineSimilarity] always returns: [0] when the lengths differ or a
    magnitude is zero, otherwise the dot product over the product of the
    magnitudes; on the path where it calls [dotProduct] that call returns
    (its dimension error is not raised). *)
Theorem cosineSimilarity_total (a b : list float) :
  let degenerate :=
    negb (Nat.eqb (length a) (length b))
    || PrimFloat.eqb (vectorUtils.magnitude a) 0
    || PrimFloat.eqb (vectorUtils.magnitude b) 0 in
  (if degenerate
   then vectorUtils.cosineSimilarity a b = Returned 0%float
   else exists dot,
       vectorUtils.dotProduct a b = Returned dot /\
       vectorUtils.cosineSimilarity a b =
         Returned (dot / (vectorUtils.magnitude a * vectorUtils.magnitude b))%float).
Proof.
  cbv zeta. unfold vectorUtils.cosineSimilarity, vectorUtils.dotProduct.
  destruct (Nat.eqb (length a) (length b)) eqn:Hlen; cbn [negb orb].
  - destruct (PrimFloat.eqb (vectorUtils.magnitude a) 0) eqn:Ha; cbn [orb].
    + reflexivity.
    + destruct (PrimFloat.eqb (vectorUtils.magnitude b) 0) eqn:Hb; cbn [orb].
      * reflexivity.
      * eexists. split; reflexivity.
  - destruct (PrimFloat.eqb (vectorUtils.magnitude a) 0);
      destruct (PrimFloat.eqb (vectorUtils.magnitude b) 0); reflexivity.
Qed.

(** ** The similarity ranker *)

Lemma cosineSimilarity_returns (a b : list float) :
  vectorUtils.cosineSimilarity a b = Returned (similarity a b).
Proof.
  unfold vectorUtils.cosineSimilarity, vectorUtils.dotProduct, similarity.
  destruct (Nat.eqb (length a) (length b));
    destruct (PrimFloat.eqb (vectorUtils.magnitude a) 0);
    destruct (PrimFloat.eqb (vectorUtils.magnitude b) 0); reflexivity.
Qed.

Section Ranker.

Context {R : Type} (embedding : R -> option (list float)).

Lemma findMostSimilar_loop_filter (q : list float) (stored acc : list R) :
  EmbeddingService.findMostSimilar_loop embedding q stored acc =
    Returned (acc ++ List.filter (reaches_threshold embedding q) stored).
Proof.
  revert acc. induction stored as [|record rest IH]; intros acc; cbn.
  - by rewrite app_nil_r.
  - unfold reaches_threshold at 1.
    destruct (embedding record) as [e|]; [|apply IH].
    destruct (Nat.eqb (length e) (length q)); cbn; [|apply IH].
    rewrite cosineSimilarity_returns. cbn.
    destruct (PrimFloat.leb _ _); [|apply IH].
    rewrite IH, <- app_assoc. reflexivity.
Qed.

(** No record is similar enough to the empty query vector. *)
Lemma no_match_for_empty_query (stored : list R) :
  List.filter (reaches_threshold embedding []) stored = [].
Proof.
  induction stored as [|record rest IH]; [done|]. cbn.
  unfold reaches_threshold at 1.
  destruct (embedding record) as [[|x e]|]; done.
Qed.

(** What [findMostSimilar] returns when neither argument is empty. *)
Lemma findMostSimilar_nonempty (q : list float) (stored : list R) :
  Nat.eqb (length q) 0 = false -> Nat.eqb (length stored) 0 = false ->
  EmbeddingService.findMostSimilar embedding q stored =
    Returned (Some (List.filter (reaches_threshold embedding q) stored)).
Proof.
  intros Hq Hstored. unfold EmbeddingService.findMostSimilar.
  rewrite Hq, Hstored. cbn [orb].
  by rewrite findMostSimilar_loop_filter.
Qed.

End Ranker.

(** C1 (amended): for a non-empty query vector and a non-empty list of
    records, [findMostSimilar] returns exactly the records whose embedding is
    present, has the length of the query vector and has cosine similarity at
    least 0.5, in the order of the list; for an empty query vector or an
    empty list it returns [null], and then no record qualifies. *)
Theorem findMostSimilar_threshold_filter {R : Type}
    (embedding : R -> option (list float)) (q : list float) (stored : list R) :
  let selected := List.filter (reaches_threshold embedding q) stored in
  if Nat.eqb (length q) 0 || Nat.eqb (length stored) 0
  then EmbeddingService.findMostSimilar embedding q stored = Returned None
       /\ selected = []
  else EmbeddingService.findMostSimilar embedding q stored = Returned (Some selected).
Proof.
  cbv zeta. unfold EmbeddingService.findMostSimilar.
  destruct q as [|x q]; cbn [length Nat.eqb orb].
  - split; [done | apply no_match_for_empty_query].
  - destruct stored as [|record rest]; cbn [length Nat.eqb].
    + done.
    + by rewrite findMostSimilar_loop_filter.
Qed.

(** C1, as stated, fails: with no stored record the result is [null], not
    the (empty) list of the qualifying records. *)
Lemma findMostSimilar_null_not_list :
  EmbeddingService.findMostSimilar DocumentProcessorService.embedding [1%float] []
  <> Returned (Some (List.filter
                       (reaches_threshold DocumentProcessorService.embedding [1%float]) [])).
Proof. vm_compute. discriminate. Qed.

(** ** The record store *)

Ltac run_M :=
  unfold mbind, M_bind, mret, M_ret, lift, throw, fs_readFile, fs_writeFile,
    crypto_randomUUID, logged; cbn.

Lemma getFilePath_valid (t : string) :
  valid_table_name t = true ->
  DatabaseAdapter._getFilePath t = Returned (t +:+ ".json").
Proof.
  unfold valid_table_name, DatabaseAdapter._getFilePath.
  destruct (_ || _); [discriminate | reflexivity].
Qed.


Lemma readTable_run (t : string) (w : World) :
  valid_table_name t = true ->
  DatabaseAdapter._readTable t w =
    (Returned (rows w t), logged (ReadFile (t +:+ ".json")) w).
Proof.
  intros Hvalid. unfold DatabaseAdapter._readTable, rows.
  rewrite (getFilePath_valid _ Hvalid). run_M.
  destruct (files w !! (t +:+ ".json")) as [[| |[]]|]; reflexivity.
Qed.

Lemma writeTable_run (t : string) (data : list JSValue) (w : World) :
  valid_table_name t = true ->
  DatabaseAdapter._writeTable t data w =
    (Returned tt,
     mkWorld (<[t +:+ ".json" := Json (JArr data)]> (files w)) (uuid_source w)
       (uuids_drawn w) (calls w ++ [WriteFile (t +:+ ".json") data])).
Proof.
  intros Hvalid. unfold DatabaseAdapter._writeTable.
  rewrite (getFilePath_valid _ Hvalid). reflexivity.
Qed.




(** What [insert] does on an input it accepts. *)
Lemma insert_run (t : string) (props : list (string * JSValue)) (w : World) :
  valid_table_name t = true ->
  assoc_get "id" props = None ->
  let newRecord := JObj (assoc_set "id" (JStr (uuid_source w (uuids_drawn w))) props) in
  DatabaseAdapter.insert t (JObj props) w =
    (Returned newRecord,
     mkWorld (<[t +:+ ".json" := Json (JArr (rows w t ++ [newRecord]))]> (files w))
       (uuid_source w) (S (uuids_drawn w))
       (calls w ++ [ReadFile (t +:+ ".json");
                    WriteFile (t +:+ ".json") (rows w t ++ [newRecord])])).
Proof.
  intros Hvalid Hid. cbv zeta. unfold DatabaseAdapter.insert, has_prop. cbn.
  rewrite Hid. unfold mbind at 1, M_bind at 1. rewrite (readTable_run _ _ Hvalid).
  unfold mbind at 1, M_bind at 1. cbn.
  unfold mbind at 1, M_bind at 1. rewrite (writeTable_run _ _ _ Hvalid). cbn.
  by rewrite <- app_assoc.
Qed.


Lemma insertable_inv (data : JSValue) :
  insertable data = true ->
  exists props, data = JObj props /\ assoc_get "id" props = None.
Proof.
  unfold insertable, has_prop.
  destruct data as [| | | |items|props]; cbn; try discriminate.
  destruct (assoc_get "id" props) eqn:E; [discriminate | eauto].
Qed.

Lemma insert_rejects (t : string) (data : JSValue) (w : World) :
  insertable data = false ->
  exists message, DatabaseAdapter.insert t data w = (Thrown message, w).
Proof.
  unfold insertable, DatabaseAdapter.insert.
  destruct (is_object data), (Array_isArray data), (has_prop data "id");
    cbn; try discriminate; eauto.
Qed.







Lemma insertMany_loop_run (items tableData newRecords : list JSValue) (w : World) :
  let fresh := with_ids (uuid_source w) (uuids_drawn w) (List.filter insertable items) in
  DatabaseAdapter.insertMany_loop items tableData newRecords w =
    (Returned (tableData ++ fresh, newRecords ++ fresh),
     mkWorld (files w) (uuid_source w) (uuids_drawn w + length fresh) (calls w)).
Proof.
  cbv zeta. revert tableData newRecords w.
  induction items as [|data rest IH]; intros tableData newRecords w.
  - cbn. rewrite !app_nil_r, Nat.add_0_r. by destruct w.
  - cbn [DatabaseAdapter.insertMany_loop List.filter].
    assert (insertable data
            = is_object data && negb (Array_isArray data) && negb (has_prop data "id"))
      as -> by reflexivity.
    destruct (is_object data), (Array_isArray data), (has_prop data "id");
      cbn [negb orb andb]; try apply IH.
    unfold mbind at 1, M_bind at 1. cbn [crypto_randomUUID].
    rewrite IH. cbn. rewrite <- !app_assoc. cbn.
    by rewrite Nat.add_succ_r.
Qed.


(** What [insertMany] does on an array. *)
Lemma insertMany_run (t : string) (items : list JSValue) (w : World) :
  valid_table_name t = true ->
  let fresh := with_ids (uuid_source w) (uuids_drawn w) (List.filter insertable items) in
  DatabaseAdapter.insertMany t (JArr items) w =
    (Returned fresh,
     if Nat.ltb 0 (length fresh) then
       mkWorld (<[t +:+ ".json" := Json (JArr (rows w t ++ fresh))]> (files w))
         (uuid_source w) (uuids_drawn w + length fresh)
         (calls w ++ [ReadFile (t +:+ ".json");
                      WriteFile (t +:+ ".json") (rows w t ++ fresh)])
     else
       mkWorld (files w) (uuid_source w) (uuids_drawn w + length fresh)
         (calls w ++ [ReadFile (t +:+ ".json")])).
Proof.
  intros Hvalid. cbv zeta. unfold DatabaseAdapter.insertMany.
  unfold mbind at 1, M_bind at 1. rewrite (readTable_run _ _ Hvalid).
  unfold mbind at 1, M_bind at 1. rewrite insertMany_loop_run. cbn.
  generalize (with_ids (uuid_source w) (uuids_drawn w) (List.filter insertable items)).
  intros [|record fresh]; cbn.
  - reflexivity.
  - unfold mbind at 1, M_bind at 1. rewrite (writeTable_run _ _ _ Hvalid). cbn.
    by rewrite <- app_assoc.
Qed.



(** ** The chunker *)

Lemma length_substring (s : string) (a m : nat) :
  String.length (String.substring a m s) = Nat.min m (String.length s - a).
Proof.
  revert a m. induction s as [|c s IH]; intros [|a] [|m];
    cbn [String.substring String.length]; rewrite ?IH; lia.
Qed.

Lemma get_Some_lt (s : string) (p : nat) (c : Ascii.ascii) :
  String.get p s = Some c -> p < String.length s.
Proof.
  revert p. induction s as [|c' s IH]; intros [|p]; cbn; try done; [lia|].
  intros H. apply IH in H. lia.
Qed.

Lemma ceil_div_bounds (a b : Z) :
  (0 < b)%Z -> ((ceil_div a b - 1) * b < a <= ceil_div a b * b)%Z.
Proof.
  intros Hb. unfold ceil_div.
  pose proof (Z.mul_div_le (a + b - 1) b Hb).
  pose proof (Z.mul_succ_div_gt (a + b - 1) b Hb). lia.
Qed.

Lemma ceil_div_step (a b : Z) :
  (0 < b)%Z -> ceil_div (a - b) b = (ceil_div a b - 1)%Z.
Proof.
  intros Hb. unfold ceil_div.
  replace (a - b + b - 1)%Z with (a + b - 1 + (-1) * b)%Z by lia.
  rewrite Z.div_add by lia. lia.
Qed.

Lemma chunks_from_succ (value : string) (chunkSize step i : Z) (count : nat) :
  chunks_from value chunkSize step i (S count) =
    js_substring value i (i + chunkSize)
    :: chunks_from value chunkSize step (i + step) count.
Proof.
  unfold chunks_from. cbn [seq map]. f_equal.
  - f_equal; lia.
  - rewrite <- seq_shift, map_map. apply map_ext. intros k. f_equal; lia.
Qed.

(** With a positive step and enough fuel the loop ends, and gives the chunks
    taken every [step] characters as long as the start is inside the text. *)
Lemma chunk_loop_run (value : string) (chunkSize overlap : Z) :
  (overlap < chunkSize)%Z ->
  forall (fuel : nat) (i : Z) (acc : list string),
    let n := Z.of_nat (String.length value) in
    let step := (chunkSize - overlap)%Z in
    Z.to_nat (ceil_div (n - i) step) < fuel ->
    EmbeddingService.chunk_loop fuel value chunkSize overlap i acc =
      Returned (acc ++ chunks_from value chunkSize step i
                         (Z.to_nat (ceil_div (n - i) step))).
Proof.
  intros Hstep fuel. cbv zeta.
  induction fuel as [|fuel IH]; intros i acc Hfuel; [lia|].
  cbn [EmbeddingService.chunk_loop].
  pose proof (ceil_div_bounds (Z.of_nat (String.length value) - i)
                (chunkSize - overlap)) as Hb.
  destruct (Z.ltb_spec i (Z.of_nat (String.length value))) as [Hlt|Hge].
  - assert (Z.to_nat (ceil_div (Z.of_nat (String.length value) - i)
                        (chunkSize - overlap))
            = S (Z.to_nat (ceil_div (Z.of_nat (String.length value)
                                     - (i + (chunkSize - overlap)))
                             (chunkSize - overlap)))) as Hcount.
    { replace (Z.of_nat (String.length value) - (i + (chunkSize - overlap)))%Z
        with (Z.of_nat (String.length value) - i - (chunkSize - overlap))%Z by lia.
      rewrite ceil_div_step by lia. nia. }
    rewrite Hcount, chunks_from_succ, IH by lia.
    by rewrite <- app_assoc.
  - replace (Z.to_nat _) with 0%nat by nia.
    by rewrite app_nil_r.
Qed.


Lemma chunks_from_lookup (value : string) (chunkSize step i : Z) (count k : nat) :
  chunks_from value chunkSize step i count !! k =
    if decide (k < count)
    then Some (js_substring value (i + Z.of_nat k * step)
                 (i + Z.of_nat k * step + chunkSize))
    else None.
Proof.
  unfold chunks_from. rewrite list_lookup_fmap.
  destruct (decide (k < count)) as [Hk|Hk].
  - by rewrite lookup_seq_lt.
  - by rewrite lookup_seq_ge by lia.
Qed.

(** A chunk that starts inside the text, as a plain substring. *)
Lemma js_substring_chunk (value : string) (start : nat) (chunkSize : Z) :
  start <= String.length value -> (0 <= chunkSize)%Z ->
  js_substring value (Z.of_nat start) (Z.of_nat start + chunkSize) =
    String.substring start (Nat.min (Z.to_nat chunkSize) (String.length value - start))
      value.
Proof.
  intros Hstart Hsize. unfold js_substring. f_equal; lia.
Qed.

(** C9 (amended): with [chunkSize] greater than [overlap] the chunking loop
    ends, with exactly the ceiling of [n / (chunkSize - overlap)] chunks for
    a text of [n] characters; when moreover [overlap] is not negative, every
    character of the text lies in one of the chunks. *)
Theorem chunking_terminates (value : string) (chunkSize overlap : Z) :
  (overlap < chunkSize)%Z ->
  let n := Z.of_nat (String.length value) in
  let step := (chunkSize - overlap)%Z in
  exists chunks,
    (forall fuel, Z.to_nat (ceil_div n step) < fuel ->
       EmbeddingService.chunk_loop fuel value chunkSize overlap 0 [] = Returned chunks) /\
    Z.of_nat (length chunks) = ceil_div n step /\
    ((ceil_div n step - 1) * step < n <= ceil_div n step * step)%Z /\
    ((0 <= overlap)%Z ->
     forall (p : nat) (c : Ascii.ascii),
       String.get p value = Some c ->
       exists (k : nat) (chunk : string),
         chunks !! k = Some chunk /\
         (Z.of_nat k * step <= Z.of_nat p)%Z /\
         String.get (p - Z.to_nat (Z.of_nat k * step)) chunk = Some c).
Proof.
  intros Hstep. cbv zeta.
  set (n := Z.of_nat (String.length value)). set (step := (chunkSize - overlap)%Z).
  pose proof (ceil_div_bounds n step ltac:(lia)) as Hceil.
  exists (chunks_from value chunkSize step 0 (Z.to_nat (ceil_div n step))).
  split; [|split; [|split]].
  - intros fuel Hfuel.
    pose proof (chunk_loop_run value chunkSize overlap Hstep fuel 0 []) as Hrun.
    cbv zeta in Hrun. rewrite Z.sub_0_r in Hrun. by apply Hrun.
  - unfold chunks_from. rewrite length_map, length_seq. nia.
  - exact Hceil.
  - intros Hoverlap p c Hget.
    pose proof (get_Some_lt _ _ _ Hget) as Hp.
    pose proof (Z.mul_div_le (Z.of_nat p) step ltac:(lia)) as Hlow.
    pose proof (Z.mul_succ_div_gt (Z.of_nat p) step ltac:(lia)) as Hhigh.
    assert (0 <= Z.of_nat p / step)%Z as Hk0 by (apply Z.div_pos; lia).
    set (q := (Z.of_nat p / step)%Z) in *.
    assert (0 <= q * step)%Z as Hqs by nia.
    exists (Z.to_nat q), (js_substring value (Z.of_nat (Z.to_nat q) * step)
                            (Z.of_nat (Z.to_nat q) * step + chunkSize)).
    rewrite Z2Nat.id by lia.
    split; [|split].
    + rewrite chunks_from_lookup, Z2Nat.id by lia.
      destruct (decide (Z.to_nat q < Z.to_nat (ceil_div n step))) as [_|Hout]; [done|].
      subst n. nia.
    + lia.
    + rewrite <- Hget.
      replace (q * step)%Z with (Z.of_nat (Z.to_nat (q * step))) at 2 3 by lia.
      rewrite js_substring_chunk by lia.
      rewrite String.substring_correct1 by lia.
      f_equal. lia.
Qed.

Lemma chunking_terminates_witness :
  exists chunks,
    (forall fuel, Z.to_nat (ceil_div 5 2) < fuel ->
       EmbeddingService.chunk_loop fuel "abcde" 3 1 0 [] = Returned chunks) /\
    Z.of_nat (length chunks) = ceil_div 5 2 /\
    ((ceil_div 5 2 - 1) * 2 < 5 <= ceil_div 5 2 * 2)%Z /\
    ((0 <= 1)%Z ->
     forall (p : nat) (c : Ascii.ascii),
       String.get p "abcde" = Some c ->
       exists (k : nat) (chunk : string),
         chunks !! k = Some chunk /\
         (Z.of_nat k * 2 <= Z.of_nat p)%Z /\
         String.get (p - Z.to_nat (Z.of_nat k * 2)) chunk = Some c).
Proof.
  apply (chunking_terminates "abcde" 3 1). reflexivity.
Defined.

(** C9, as stated, fails: with [chunkSize = 1] and [overlap = -1] the loop
    steps by 2 and the one chunk it takes of the text "ab" is "a"; the
    character "b" is in no chunk. *)
Lemma negative_overlap_leaves_gaps :
  (-1 < 1)%Z /\
  EmbeddingService.chunk_loop 5 "ab" 1 (-1) 0 [] = Returned ["a"] /\
  String.get 1 "ab" = Some "b"%char /\
  ~ (exists (k : nat) (chunk : string),
       ["a"] !! k = Some chunk /\
       (Z.of_nat k * (1 - -1) <= 1)%Z /\
       String.get (1 - Z.to_nat (Z.of_nat k * (1 - -1))) chunk = Some "b"%char).
Proof.
  split; [lia|]. split; [reflexivity|]. split; [reflexivity|].
  intros (k & chunk & Hk & _ & Hget).
  destruct k as [|k]; cbn in Hk; [|done].
  injection Hk as <-. cbn in Hget. discriminate.
Qed.

Lemma default_fuel_enough (len : nat) :
  Z.to_nat (ceil_div (Z.of_nat len) 450) <= len.
Proof.
  pose proof (ceil_div_bounds (Z.of_nat len) 450 ltac:(lia)). lia.
Qed.

(** C4 (amended): with the default parameters the chunks of a non-empty text
    start at 0, 450, 900, ... as long as the start is inside the text; the
    chunk that starts at [s] is the substring of the at most 500 characters
    from [s] on: 500 of them unless the text ends before, then what is left;
    a chunk and the next one share the last characters of the first, 50 of
    them unless the text ends before, then what is left after the start of
    the second. *)
Theorem default_chunking (value : string) :
  value <> EmptyString ->
  let len := String.length value in
  exists chunks,
    (forall fuel, len < fuel ->
       EmbeddingService.chunk_loop fuel value EmbeddingService.default_chunkSize
         EmbeddingService.default_overlap 0 [] = Returned chunks) /\
    Z.of_nat (length chunks) = ceil_div (Z.of_nat len) 450 /\
    chunks <> [] /\
    (forall (k : nat) (chunk : string),
       chunks !! k = Some chunk ->
       450 * k < len /\
       chunk = String.substring (450 * k) (Nat.min 500 (len - 450 * k)) value /\
       String.length chunk = Nat.min 500 (len - 450 * k) /\
       forall next : string,
         chunks !! S k = Some next ->
         let shared := Nat.min 50 (len - 450 * S k) in
         String.length chunk = 450 + shared /\
         String.substring 450 shared chunk = String.substring 0 shared next).
Proof.
  intros Hvalue. cbv zeta.
  set (len := String.length value).
  assert (0 < len) as Hlen by (subst len; destruct value; [done | cbn; lia]).
  pose proof (ceil_div_bounds (Z.of_nat len) 450 ltac:(lia)) as Hceil.
  pose proof (default_fuel_enough len) as Hfuel.
  set (count := Z.to_nat (ceil_div (Z.of_nat len) 450)) in *.
  assert (forall k chunk,
             chunks_from value 500 450 0 count !! k = Some chunk ->
             450 * k < len /\
             chunk = String.substring (450 * k) (Nat.min 500 (len - 450 * k)) value)
    as Hchunk.
  { intros k chunk. rewrite chunks_from_lookup.
    destruct (decide (k < count)) as [Hk|]; [|done]. intros [= <-].
    assert (450 * k < len) as Hstart by lia.
    split; [done|].
    replace (0 + Z.of_nat k * 450)%Z with (Z.of_nat (450 * k)) by lia.
    rewrite js_substring_chunk by (subst len; lia). reflexivity. }
  exists (chunks_from value 500 450 0 count).
  split; [|split; [|split]].
  - intros fuel Hf.
    pose proof (chunk_loop_run value 500 50 ltac:(lia) fuel 0 []) as Hrun.
    cbv zeta in Hrun. rewrite Z.sub_0_r in Hrun. apply Hrun.
    change (500 - 50)%Z with 450%Z. fold len. fold count. lia.
  - unfold chunks_from. rewrite length_map, length_seq. lia.
  - intros Hnil. apply (f_equal length) in Hnil.
    unfold chunks_from in Hnil. rewrite length_map, length_seq in Hnil. cbn in Hnil. lia.
  - intros k chunk Hk. destruct (Hchunk k chunk Hk) as [Hstart ->].
    split; [done|]. split; [done|]. split; [rewrite length_substring; fold len; lia|].
    intros next Hnext. destruct (Hchunk (S k) next Hnext) as [Hstart' ->].
    cbv zeta. split; [rewrite length_substring; fold len; lia|].
    apply String.get_correct. intros p.
    destruct (Nat.lt_ge_cases p (Nat.min 50 (len - 450 * S k))) as [Hp|Hp].
    + rewrite !String.substring_correct1 by lia. f_equal. lia.
    + by rewrite !String.substring_correct2 by lia.
Qed.

Lemma default_chunking_witness :
  exists chunks,
    (forall fuel, String.length "abc" < fuel ->
       EmbeddingService.chunk_loop fuel "abc" EmbeddingService.default_chunkSize
         EmbeddingService.default_overlap 0 [] = Returned chunks) /\
    Z.of_nat (length chunks) = ceil_div (Z.of_nat (String.length "abc")) 450 /\
    chunks <> [] /\
    (forall (k : nat) (chunk : string),
       chunks !! k = Some chunk ->
       450 * k < String.length "abc" /\
       chunk = String.substring (450 * k)
                 (Nat.min 500 (String.length "abc" - 450 * k)) "abc" /\
       String.length chunk = Nat.min 500 (String.length "abc" - 450 * k) /\
       forall next : string,
         chunks !! S k = Some next ->
         let shared := Nat.min 50 (String.length "abc" - 450 * S k) in
         String.length chunk = 450 + shared /\
         String.substring 450 shared chunk = String.substring 0 shared next).
Proof.
  apply (default_chunking "abc"). discriminate.
Defined.

(** C4, as stated, fails: the one chunk of the text "abc" has 3 characters,
    not 500; and the two chunks of a text of 460 characters, of 460 and of
    10 characters, share 10 characters, not 50. *)
Lemma chunks_shorter_than_chunkSize :
  (EmbeddingService.chunk_loop 4 "abc" EmbeddingService.default_chunkSize
     EmbeddingService.default_overlap 0 [] = Returned ["abc"]
   /\ String.length "abc" <> 500)
  /\
  (EmbeddingService.chunk_loop 461 (text_of 460 "a") EmbeddingService.default_chunkSize
     EmbeddingService.default_overlap 0 []
   = Returned [text_of 460 "a"; text_of 10 "a"]
   /\ String.length (text_of 460 "a") <> 500
   /\ String.length (text_of 10 "a") <> 50).
Proof.
  split; [split; [reflexivity | discriminate]|].
  split; [vm_compute; reflexivity|].
  split; vm_compute; discriminate.
Qed.

(** ** Search *)

Lemma getAll_run (t : string) (w : World) :
  valid_table_name t = true ->
  DatabaseAdapter.getAll t w =
    (Returned (List.filter stored_record (rows w t)),
     logged (ReadFile (t +:+ ".json")) w).
Proof.
  intros Hvalid. unfold DatabaseAdapter.getAll.
  unfold mbind at 1, M_bind at 1. by rewrite (readTable_run _ _ Hvalid).
Qed.

Section Search.

Variable embed : string -> Completion (list float).

Lemma generateEmbedding_empty (w : World) :
  EmbeddingService.generateEmbedding embed EmptyString w = (Returned [], w).
Proof. reflexivity. Qed.




End Search.









(** ** Ingestion *)

Section Ingestion.

Context {Buffer : Type}.
Variable embed : string -> Completion (list float).
Variable readFile : string -> Completion Buffer.
Variable pdfParse : Buffer -> Completion string.
Variable path_basename : string -> string.

Lemma embed_loop_run (chunks : list string) (embs : list (list float))
    (acc : list (string * list float)) (w : World) :
  Forall2 (fun chunk e => embed chunk = Returned e) chunks embs ->
  EmbeddingService.embed_loop embed chunks acc w =
    (Returned (acc ++ zip chunks embs),
     mkWorld (files w) (uuid_source w) (uuids_drawn w)
       (calls w ++ map Embed chunks)).
Proof.
  intros Hall. revert acc w.
  induction Hall as [|chunk e chunks embs He _ IH]; intros acc w.
  - cbn. rewrite !app_nil_r. by destruct w.
  - cbn [EmbeddingService.embed_loop]. unfold mbind at 1, M_bind at 1.
    unfold EmbeddingService.call_embed. rewrite He, IH. cbn.
    by rewrite <- !app_assoc.
Qed.

Lemma default_chunks_nonempty (value : string) :
  value <> EmptyString -> default_chunks value <> [].
Proof.
  intros Hvalue Hnil. apply (f_equal length) in Hnil.
  unfold default_chunks, chunks_from in Hnil.
  rewrite length_map, length_seq in Hnil. cbn [length] in Hnil.
  pose proof (ceil_div_bounds (Z.of_nat (String.length value)) 450 ltac:(lia)).
  assert (0 < String.length value) by (destruct value; [done | cbn; lia]).
  lia.
Qed.

(** What [generateEmbeddings] does with the default parameters when the
    provider answers for every chunk. *)
Lemma generateEmbeddings_default_run (value : string) (embs : list (list float))
    (w : World) :
  value <> EmptyString ->
  Forall2 (fun chunk e => embed chunk = Returned e) (default_chunks value) embs ->
  EmbeddingService.generateEmbeddings embed (S (String.length value)) value
    EmbeddingService.default_chunkSize EmbeddingService.default_overlap w =
    (Returned (zip (default_chunks value) embs),
     mkWorld (files w) (uuid_source w) (uuids_drawn w)
       (calls w ++ map Embed (default_chunks value))).
Proof.
  intros Hvalue Hall. unfold EmbeddingService.generateEmbeddings.
  destruct (String.eqb value "") eqn:Hempty.
  { apply String.eqb_eq in Hempty. done. }
  pose proof (chunk_loop_run value 500 50 ltac:(lia) (S (String.length value)) 0 [])
    as Hrun.
  cbv zeta in Hrun. rewrite Z.sub_0_r in Hrun.
  change (500 - 50)%Z with 450%Z in Hrun.
  unfold mbind at 1, M_bind at 1, lift.
  unfold EmbeddingService.default_chunkSize, EmbeddingService.default_overlap.
  rewrite Hrun by (pose proof (default_fuel_enough (String.length value)); lia).
  cbn [app]. fold (default_chunks value).
  pose proof (default_chunks_nonempty value Hvalue) as Hne.
  destruct (default_chunks value) as [|chunk chunks] eqn:Hchunks; [done|].
  cbn [length Nat.eqb]. unfold try_catchM.
  by rewrite (embed_loop_run _ _ [] _ Hall).
Qed.

Lemma with_ids_stored_chunks (source : nat -> string) (n : nat) (resourceId : string)
    (resource : JSValue) (ces : list (string * list float)) :
  get_prop resource "id" = Some (JStr resourceId) ->
  with_ids source n (map (DocumentProcessorService.embeddingRecordToInsert resource) ces)
  = imap (fun i ce => stored_chunk resourceId ce (source (n + i))) ces.
Proof.
  intros Hid. revert n. induction ces as [|ce ces IH]; intros n; [done|].
  cbn [map with_ids imap]. f_equal.
  - unfold DocumentProcessorService.embeddingRecordToInsert, stored_chunk.
    rewrite Hid, Nat.add_0_r. reflexivity.
  - rewrite IH. apply imap_ext. intros i ce' _. cbn. by rewrite Nat.add_succ_r.
Qed.

Lemma records_to_insert_insertable (resource : JSValue) (resourceId : string)
    (ces : list (string * list float)) :
  get_prop resource "id" = Some (JStr resourceId) ->
  List.filter insertable (map (DocumentProcessorService.embeddingRecordToInsert resource) ces)
  = map (DocumentProcessorService.embeddingRecordToInsert resource) ces.
Proof.
  intros Hid. induction ces as [|ce ces IH]; [done|].
  cbn [map List.filter]. rewrite IH.
  unfold DocumentProcessorService.embeddingRecordToInsert at 1. by rewrite Hid.
Qed.

Lemma trim_blank_empty (text : string) :
  trim text <> EmptyString ->
  String.eqb text EmptyString || Nat.eqb (String.length (trim text)) 0 = false.
Proof.
  intros Htrim. destruct text as [|c text]; [done|]. cbn [String.eqb orb].
  destruct (trim (String c text)); [done | reflexivity].
Qed.

End Ingestion.





(** * Further properties *)

(** ** The record store: errors, lookups, batches *)

Lemma getFilePath_message (t : string) :
  valid_table_name t = false ->
  DatabaseAdapter._getFilePath t = Thrown (invalid_table_name_message t).
Proof.
  unfold valid_table_name, DatabaseAdapter._getFilePath.
  destruct (_ || _); [reflexivity | discriminate].
Qed.

Lemma readTable_throws (t : string) (w : World) :
  valid_table_name t = false ->
  DatabaseAdapter._readTable t w = (Thrown (invalid_table_name_message t), w).
Proof.
  intros Hbad. unfold DatabaseAdapter._readTable.
  by rewrite (getFilePath_message _ Hbad).
Qed.

Lemma invalid_table_name_rejected_aux (t : string) (w : World) :
  valid_table_name t = false ->
  (forall data, insertable data = true ->
     DatabaseAdapter.insert t data w = (Thrown (invalid_table_name_message t), w)) /\
  (forall items,
     DatabaseAdapter.insertMany t (JArr items) w
     = (Thrown (invalid_table_name_message t), w)).
Proof.
  intros Hbad. pose proof (readTable_throws t w Hbad) as Hread. split.
  - intros data Hdata. destruct (insertable_inv _ Hdata) as (props & -> & Hfresh).
    unfold DatabaseAdapter.insert, has_prop. cbn. rewrite Hfresh.
    unfold mbind at 1, M_bind at 1. by rewrite Hread.
  - intros items. unfold DatabaseAdapter.insertMany.
    unfold mbind at 1, M_bind at 1. by rewrite Hread.
Qed.



Lemma getById_run (t id : string) (w : World) :
  valid_table_name t = true -> id <> EmptyString ->
  DatabaseAdapter.getById t id w =
    (Returned (List.find (fun r => is_object r && has_prop r "id"
                                   && DatabaseAdapter.id_is id r) (rows w t)),
     logged (ReadFile (t +:+ ".json")) w).
Proof.
  intros Hvalid Hid. unfold DatabaseAdapter.getById.
  destruct (String.eqb id "") eqn:E; [by apply String.eqb_eq in E|].
  unfold mbind at 1, M_bind at 1. by rewrite (readTable_run _ _ Hvalid).
Qed.

Lemma id_is_get_prop (id : string) (r : JSValue) :
  DatabaseAdapter.id_is id r = true <-> get_prop r "id" = Some (JStr id).
Proof.
  unfold DatabaseAdapter.id_is.
  destruct (get_prop r "id") as [[| | |s| |]|]; split; try done.
  - intros E. apply String.eqb_eq in E. by subst.
  - intros [= ->]. apply String.eqb_refl.
Qed.

Lemma getById_test (id : string) (r : JSValue) :
  is_object r && has_prop r "id" && DatabaseAdapter.id_is id r
  = DatabaseAdapter.id_is id r.
Proof.
  destruct (DatabaseAdapter.id_is id r) eqn:E; [|by rewrite andb_false_r].
  apply id_is_get_prop in E. unfold has_prop. rewrite E.
  destruct r; try done.
Qed.

Lemma find_first {A} (f : A -> bool) (l : list A) (x : A) :
  List.find f l = Some x ->
  exists before after,
    l = before ++ x :: after /\ f x = true /\ forall y, y ∈ before -> f y = false.
Proof.
  induction l as [|y l IH]; cbn; [done|].
  destruct (f y) eqn:E.
  - intros [= ->]. exists [], l. split; [done|]. split; [done|].
    intros z Hz. by apply elem_of_nil in Hz.
  - intros Hfind. destruct (IH Hfind) as (before & after & -> & Hx & Hbefore).
    exists (y :: before), after. split; [done|]. split; [done|].
    intros z Hz. apply elem_of_cons in Hz as [->|Hz]; [done | by apply Hbefore].
Qed.

(** X2: [getById] returns the first record of the table whose [id] is the
    given string, and [null] exactly when the table has no such record; it
    reads the table file once. *)
Theorem getById_finds_first (t id : string) (w : World) :
  valid_table_name t = true -> id <> EmptyString ->
  exists found,
    DatabaseAdapter.getById t id w = (Returned found, logged (ReadFile (t +:+ ".json")) w)
    /\ match found with
       | Some r =>
           exists before after,
             rows w t = before ++ r :: after /\
             get_prop r "id" = Some (JStr id) /\
             forall x, x ∈ before -> get_prop x "id" <> Some (JStr id)
       | None => forall x, x ∈ rows w t -> get_prop x "id" <> Some (JStr id)
       end.
Proof.
  intros Hvalid Hid. eexists. split; [by apply getById_run|].
  destruct (List.find _ (rows w t)) as [r|] eqn:Hfind.
  - destruct (find_first _ _ _ Hfind) as (before & after & Hrows & Hr & Hbefore).
    exists before, after. split; [done|].
    rewrite getById_test in Hr. split; [by apply id_is_get_prop|].
    intros x Hx Hget. apply id_is_get_prop in Hget.
    specialize (Hbefore x Hx). rewrite getById_test in Hbefore. congruence.
  - intros x Hx Hget. apply id_is_get_prop in Hget.
    pose proof (find_none _ _ Hfind x) as Hnone. cbn beta in Hnone.
    rewrite getById_test in Hnone. rewrite Hnone in Hget; [done|].
    by apply list_elem_of_In.
Qed.

Lemma getById_finds_first_witness :
  exists found,
    DatabaseAdapter.getById "embeddings" "second" two_chunk_world
    = (Returned found, logged (ReadFile ("embeddings" +:+ ".json")) two_chunk_world)
    /\ match found with
       | Some r =>
           exists before after,
             rows two_chunk_world "embeddings" = before ++ r :: after /\
             get_prop r "id" = Some (JStr "second") /\
             forall x, x ∈ before -> get_prop x "id" <> Some (JStr "second")
       | None =>
           forall x, x ∈ rows two_chunk_world "embeddings" ->
                     get_prop x "id" <> Some (JStr "second")
       end.
Proof.
  apply (getById_finds_first "embeddings" "second" two_chunk_world);
    [reflexivity | discriminate].
Defined.

(** X3: when exactly one record of the table has a given non-empty [id],
    [getById] with this id returns that record. *)
Theorem getById_unique_id (t id : string) (r : JSValue) (w : World) :
  valid_table_name t = true -> id <> EmptyString ->
  r ∈ rows w t ->
  get_prop r "id" = Some (JStr id) ->
  (forall x, x ∈ rows w t -> get_prop x "id" = Some (JStr id) -> x = r) ->
  fst (DatabaseAdapter.getById t id w) = Returned (Some r).
Proof.
  intros Hvalid Hid Hr Hget Hunique.
  rewrite getById_run by done. cbn [fst].
  destruct (List.find _ (rows w t)) as [x|] eqn:Hfind.
  - destruct (find_some _ _ Hfind) as [Hx Hfx]. cbn beta in Hfx.
    rewrite getById_test in Hfx.
    apply id_is_get_prop in Hfx. apply list_elem_of_In in Hx.
    by rewrite (Hunique x Hx Hfx).
  - pose proof (find_none _ _ Hfind r) as Hnone. cbn beta in Hnone.
    rewrite getById_test in Hnone.
    apply id_is_get_prop in Hget. rewrite Hnone in Hget; [done|].
    by apply list_elem_of_In.
Qed.

Lemma getById_unique_id_witness :
  fst (DatabaseAdapter.getById "embeddings" "second" two_chunk_world)
  = Returned (Some record_10).
Proof.
  apply (getById_unique_id "embeddings" "second" record_10 two_chunk_world).
  - reflexivity.
  - discriminate.
  - cbn. set_solver.
  - reflexivity.
  - intros x Hx Hid. cbn in Hx.
    apply elem_of_cons in Hx as [->|Hx]; [discriminate Hid|].
    apply elem_of_cons in Hx as [->|Hx]; [reflexivity|].
    by apply elem_of_nil in Hx.
Defined.

Lemma readTable_files (t : string) (w : World) :
  files (snd (DatabaseAdapter._readTable t w)) = files w
  /\ uuids_drawn (snd (DatabaseAdapter._readTable t w)) = uuids_drawn w.
Proof.
  destruct (valid_table_name t) eqn:Hvalid.
  - by rewrite readTable_run.
  - by rewrite readTable_throws.
Qed.

(** X4: [getById] and [getAll] only read: whatever the table name, the id and
    the state of the files, they write no file and draw no identifier. *)
Theorem lookups_only_read (t id : string) (w : World) :
  files (snd (DatabaseAdapter.getById t id w)) = files w /\
  uuids_drawn (snd (DatabaseAdapter.getById t id w)) = uuids_drawn w /\
  files (snd (DatabaseAdapter.getAll t w)) = files w /\
  uuids_drawn (snd (DatabaseAdapter.getAll t w)) = uuids_drawn w.
Proof.
  pose proof (readTable_files t w) as [Hfiles Hdrawn].
  unfold DatabaseAdapter.getById, DatabaseAdapter.getAll.
  destruct (String.eqb id ""); unfold mbind, M_bind, mret, M_ret;
    destruct (DatabaseAdapter._readTable t w) as [[data|e|] w1]; done.
Qed.

Lemma append_cons (c : ascii) (s1 s2 : string) :
  String c s1 +:+ s2 = String c (s1 +:+ s2).
Proof. reflexivity. Qed.

Lemma append_length (s1 s2 : string) :
  String.length (s1 +:+ s2) = String.length s1 + String.length s2.
Proof.
  induction s1 as [|c s1 IH]; [done|].
  rewrite append_cons. cbn [String.length]. by rewrite IH.
Qed.

Lemma append_suffix_inj (s1 s2 suffix : string) :
  s1 +:+ suffix = s2 +:+ suffix -> s1 = s2.
Proof.
  revert s2. induction s1 as [|c s1 IH]; intros [|c' s2] Heq.
  - done.
  - apply (f_equal String.length) in Heq.
    rewrite !append_length in Heq. cbn [String.length] in Heq. lia.
  - apply (f_equal String.length) in Heq.
    rewrite !append_length in Heq. cbn [String.length] in Heq. lia.
  - rewrite !append_cons in Heq. injection Heq as -> Heq. f_equal. by apply IH.
Qed.

Lemma rows_other_table (t t' : string) (content : FileContent)
    (fs : gmap string FileContent) (src : nat -> string) (n : nat) (log : list Call) :
  t' <> t ->
  rows (mkWorld (<[t +:+ ".json" := content]> fs) src n log) t'
  = rows (mkWorld fs src n log) t'.
Proof.
  intros Hne. unfold rows. cbn [files].
  rewrite lookup_insert_ne; [done|].
  intros Heq. apply append_suffix_inj in Heq. congruence.
Qed.

(** X5: tables are isolated: [insert] and [insertMany] on one table never
    change the records of a table of another name, whatever the input. *)
Theorem tables_isolated (t t' : string) (data : JSValue) (items : list JSValue)
    (w : World) :
  t' <> t ->
  rows (snd (DatabaseAdapter.insert t data w)) t' = rows w t' /\
  rows (snd (DatabaseAdapter.insertMany t (JArr items) w)) t' = rows w t'.
Proof.
  intros Hne. destruct (valid_table_name t) eqn:Hvalid.
  - split.
    + destruct (insertable data) eqn:Hdata.
      * destruct (insertable_inv _ Hdata) as (props & -> & Hfresh).
        rewrite (insert_run t props w Hvalid Hfresh). cbn [snd].
        rewrite rows_other_table by done. by destruct w.
      * destruct (insert_rejects t data w Hdata) as [message ->]. done.
    + rewrite (insertMany_run t items w Hvalid). cbn [snd].
      destruct (Nat.ltb 0 _).
      * rewrite rows_other_table by done. by destruct w.
      * by destruct w.
  - destruct (invalid_table_name_rejected_aux t w Hvalid) as [Hinsert Hmany].
    split.
    + destruct (insertable data) eqn:Hdata.
      * by rewrite Hinsert.
      * destruct (insert_rejects t data w Hdata) as [message ->]. done.
    + by rewrite Hmany.
Qed.

Lemma tables_isolated_witness :
  rows (snd (DatabaseAdapter.insert "resources" (JObj [("content", JStr "text")])
               two_chunk_world)) "embeddings"
  = rows two_chunk_world "embeddings".
Proof.
  apply (tables_isolated "resources" "embeddings" (JObj [("content", JStr "text")]) []
           two_chunk_world).
  discriminate.
Defined.












(** ** The embedding service: provider calls, failures, loops *)

Section Embedding.

Variable embed : string -> Completion (list float).

Lemma embed_loop_fails (finished : list string) (failing : string) (rest : list string)
    (embs : list (list float)) (message : string)
    (acc : list (string * list float)) (w : World) :
  Forall2 (fun chunk e => embed chunk = Returned e) finished embs ->
  embed failing = Thrown message ->
  EmbeddingService.embed_loop embed (finished ++ failing :: rest) acc w =
    (Thrown message,
     mkWorld (files w) (uuid_source w) (uuids_drawn w)
       (calls w ++ map Embed (finished ++ [failing]))).
Proof.
  intros Hall Hfail. revert acc w.
  induction Hall as [|chunk e finished embs He _ IH]; intros acc w.
  - cbn [app EmbeddingService.embed_loop]. unfold mbind at 1, M_bind at 1.
    unfold EmbeddingService.call_embed. by rewrite Hfail.
  - cbn [app EmbeddingService.embed_loop]. unfold mbind at 1, M_bind at 1.
    unfold EmbeddingService.call_embed. rewrite He, IH. cbn.
    by rewrite <- !app_assoc.
Qed.

Lemma chunks_from_nonempty (value : string) (chunkSize overlap : Z) :
  value <> EmptyString -> (overlap < chunkSize)%Z ->
  chunks_from value chunkSize (chunkSize - overlap) 0
    (Z.to_nat (ceil_div (Z.of_nat (String.length value)) (chunkSize - overlap)))
  <> [].
Proof.
  intros Hvalue Hstep Hnil. apply (f_equal length) in Hnil.
  unfold chunks_from in Hnil. rewrite length_map, length_seq in Hnil. cbn [length] in Hnil.
  pose proof (ceil_div_bounds (Z.of_nat (String.length value)) (chunkSize - overlap)
                ltac:(lia)).
  assert (0 < String.length value) by (destruct value; [done | cbn; lia]).
  nia.
Qed.

(** The chunking step of [generateEmbeddings], for a text that is not empty
    and parameters under which the loop ends. *)
Lemma generateEmbeddings_chunked (fuel : nat) (value : string) (chunkSize overlap : Z)
    (w : World) :
  value <> EmptyString -> (overlap < chunkSize)%Z ->
  let chunks :=
    chunks_from value chunkSize (chunkSize - overlap) 0
      (Z.to_nat (ceil_div (Z.of_nat (String.length value)) (chunkSize - overlap))) in
  length chunks < fuel ->
  EmbeddingService.generateEmbeddings embed fuel value chunkSize overlap w =
    try_catchM (EmbeddingService.embed_loop embed chunks [])
      (fun error => throw ("Failed to generate embeddings: " +:+ error)) w.
Proof.
  intros Hvalue Hstep chunks Hfuel. unfold EmbeddingService.generateEmbeddings.
  destruct (String.eqb value "") eqn:Hempty.
  { apply String.eqb_eq in Hempty. done. }
  pose proof (chunk_loop_run value chunkSize overlap Hstep fuel 0 []) as Hrun.
  cbv zeta in Hrun. rewrite Z.sub_0_r in Hrun.
  unfold mbind at 1, M_bind at 1, lift. rewrite Hrun.
  - cbn [app]. fold chunks.
    pose proof (chunks_from_nonempty value chunkSize overlap Hvalue Hstep) as Hne.
    fold chunks in Hne. destruct chunks; [done | reflexivity].
  - subst chunks. unfold chunks_from in Hfuel.
    by rewrite length_map, length_seq in Hfuel.
Qed.

(** X9: when the chunking loop ends and the provider answers for every
    chunk, [generateEmbeddings] calls the provider once per chunk, in the
    order of the chunks, returns each chunk with the embedding returned for
    it, in the same order, and touches no file and no identifier. *)
Theorem generateEmbeddings_one_call_per_chunk (fuel : nat) (value : string)
    (chunkSize overlap : Z) (embs : list (list float)) (w : World) :
  value <> EmptyString -> (overlap < chunkSize)%Z ->
  let chunks :=
    chunks_from value chunkSize (chunkSize - overlap) 0
      (Z.to_nat (ceil_div (Z.of_nat (String.length value)) (chunkSize - overlap))) in
  length chunks < fuel ->
  Forall2 (fun chunk e => embed chunk = Returned e) chunks embs ->
  EmbeddingService.generateEmbeddings embed fuel value chunkSize overlap w =
    (Returned (zip chunks embs),
     mkWorld (files w) (uuid_source w) (uuids_drawn w) (calls w ++ map Embed chunks)).
Proof.
  intros Hvalue Hstep chunks Hfuel Hall.
  rewrite generateEmbeddings_chunked by done. fold chunks.
  unfold try_catchM. by rewrite (embed_loop_run embed _ _ [] _ Hall).
Qed.

(** X10: when the provider fails on a chunk after answering for the chunks
    before it, [generateEmbeddings] throws the provider's message behind
    "Failed to generate embeddings: ", returns none of the embeddings it
    got, and has called the provider for the chunks up to the failing one
    and for no later chunk. *)
Theorem generateEmbeddings_stops_at_failure (fuel : nat) (value : string)
    (chunkSize overlap : Z) (finished : list string) (failing : string)
    (rest : list string) (embs : list (list float)) (message : string) (w : World) :
  value <> EmptyString -> (overlap < chunkSize)%Z ->
  chunks_from value chunkSize (chunkSize - overlap) 0
    (Z.to_nat (ceil_div (Z.of_nat (String.length value)) (chunkSize - overlap)))
  = finished ++ failing :: rest ->
  length (finished ++ failing :: rest) < fuel ->
  Forall2 (fun chunk e => embed chunk = Returned e) finished embs ->
  embed failing = Thrown message ->
  EmbeddingService.generateEmbeddings embed fuel value chunkSize overlap w =
    (Thrown ("Failed to generate embeddings: " +:+ message),
     mkWorld (files w) (uuid_source w) (uuids_drawn w)
       (calls w ++ map Embed (finished ++ [failing]))).
Proof.
  intros Hvalue Hstep Hchunks Hfuel Hall Hfail.
  rewrite generateEmbeddings_chunked by (rewrite ?Hchunks; done).
  rewrite Hchunks. unfold try_catchM.
  by rewrite (embed_loop_fails _ _ _ _ _ _ _ Hall Hfail).
Qed.


End Embedding.

Lemma generateEmbeddings_one_call_per_chunk_witness :
  EmbeddingService.generateEmbeddings sample_embed 5 "abc" 2 1 empty_world =
    (Returned [("ab", [1%float; 0%float]); ("bc", [1%float; 0%float]);
               ("c", [1%float; 0%float])],
     mkWorld ∅ sample_uuid 0 [Embed "ab"; Embed "bc"; Embed "c"]).
Proof.
  apply (generateEmbeddings_one_call_per_chunk sample_embed 5 "abc" 2 1
           [[1%float; 0%float]; [1%float; 0%float]; [1%float; 0%float]] empty_world).
  - discriminate.
  - reflexivity.
  - vm_compute. lia.
  - repeat constructor.
Defined.

Lemma generateEmbeddings_stops_at_failure_witness :
  EmbeddingService.generateEmbeddings failing_embed 5 "abc" 2 1 empty_world =
    (Thrown ("Failed to generate embeddings: " +:+ "quota"),
     mkWorld ∅ sample_uuid 0 [Embed "ab"; Embed "bc"]).
Proof.
  apply (generateEmbeddings_stops_at_failure failing_embed 5 "abc" 2 1
           ["ab"] "bc" ["c"] [[1%float; 0%float]] "quota" empty_world).
  - discriminate.
  - reflexivity.
  - reflexivity.
  - vm_compute. lia.
  - repeat constructor.
  - reflexivity.
Defined.


(** ** The chunker: nothing is lost *)

Lemma substring_split (s : string) (a m1 m2 : nat) :
  String.substring a (m1 + m2) s
  = String.substring a m1 s +:+ String.substring (a + m1) m2 s.
Proof.
  revert a m1 m2. induction s as [|c s IH]; intros a m1 m2.
  - destruct a, m1, m2; reflexivity.
  - destruct a as [|a].
    + destruct m1 as [|m1]; [reflexivity|].
      cbn [String.substring Nat.add]. rewrite append_cons. f_equal. apply (IH 0).
    + cbn [String.substring Nat.add]. apply IH.
Qed.

Lemma substring_all (s : string) : String.substring 0 (String.length s) s = s.
Proof. induction s as [|c s IH]; cbn; [done | by rewrite IH]. Qed.

Lemma substring_none (s : string) (a : nat) : String.substring a 0 s = EmptyString.
Proof. revert a. induction s as [|c s IH]; intros [|a]; cbn; try done. Qed.

Lemma substring_substring (s : string) (a m b l : nat) :
  String.substring a m (String.substring b l s)
  = String.substring (b + a) (Nat.min m (l - a)) s.
Proof.
  apply String.get_correct. intros p.
  destruct (Nat.lt_ge_cases p m) as [Hpm|Hpm].
  - rewrite String.substring_correct1 by done.
    destruct (Nat.lt_ge_cases (p + a) l) as [Hpl|Hpl].
    + rewrite !String.substring_correct1 by lia. f_equal. lia.
    + by rewrite !String.substring_correct2 by lia.
  - by rewrite !String.substring_correct2 by lia.
Qed.

Lemma sub_range_split (value : string) (a b c : Z) :
  (0 <= a <= b)%Z -> (b <= c)%Z ->
  sub_range value a b +:+ sub_range value b c = sub_range value a c.
Proof.
  intros Hab Hbc. unfold sub_range.
  replace (Z.to_nat (c - a)) with (Z.to_nat (b - a) + Z.to_nat (c - b)) by lia.
  replace (Z.to_nat b) with (Z.to_nat a + Z.to_nat (b - a)) by lia.
  symmetry. apply substring_split.
Qed.

Lemma js_substring_range (value : string) (i chunkSize : Z) :
  (0 <= i)%Z -> (0 <= chunkSize)%Z ->
  let n := Z.of_nat (String.length value) in
  js_substring value i (i + chunkSize)
  = sub_range value (Z.min i n) (Z.min (i + chunkSize) n).
Proof. intros Hi Hsize. cbv zeta. unfold js_substring, sub_range. f_equal; lia. Qed.

Lemma strip_sub_range (value : string) (a b overlap : Z) :
  (0 <= a <= b)%Z -> (b <= Z.of_nat (String.length value))%Z -> (0 <= overlap)%Z ->
  js_substring (sub_range value a b) overlap
    (Z.of_nat (String.length (sub_range value a b)))
  = sub_range value (Z.min (a + overlap) b) b.
Proof.
  intros Hab Hb Hov.
  assert (String.length (sub_range value a b) = Z.to_nat (b - a)) as Hlen.
  { unfold sub_range. rewrite length_substring. lia. }
  unfold js_substring. rewrite Hlen. unfold sub_range.
  rewrite substring_substring. f_equal; lia.
Qed.

Lemma stripped_chunks (value : string) (chunkSize overlap : Z) :
  (0 <= overlap < chunkSize)%Z ->
  let n := Z.of_nat (String.length value) in
  let step := (chunkSize - overlap)%Z in
  forall (count : nat) (i : Z),
    (0 <= i)%Z ->
    count = Z.to_nat (ceil_div (n - i) step) ->
    fold_right String.append EmptyString
      (map (fun chunk => js_substring chunk overlap (Z.of_nat (String.length chunk)))
         (chunks_from value chunkSize step i count))
    = sub_range value (Z.min (i + overlap) n) n.
Proof.
  intros Hparams n step count.
  induction count as [|count IH]; intros i Hi Hcount;
    pose proof (ceil_div_bounds (n - i) step ltac:(subst step; lia)) as Hceil.
  - cbn. unfold sub_range.
    replace (Z.to_nat (n - Z.min (i + overlap) n)) with 0%nat by nia.
    by rewrite substring_none.
  - assert (i < n)%Z as Hin by nia.
    rewrite chunks_from_succ. cbn [map fold_right].
    rewrite (IH (i + step)%Z) by (rewrite ?Z.sub_add_distr, ?ceil_div_step; subst step; lia).
    rewrite js_substring_range by lia. fold n.
    rewrite strip_sub_range by (subst n; lia).
    replace (Z.min (Z.min i n + overlap) (Z.min (i + chunkSize) n))
      with (Z.min (i + overlap) n) by lia.
    replace (i + step + overlap)%Z with (i + chunkSize)%Z by (subst step; lia).
    apply sub_range_split; lia.
Qed.

(** X12: chunking loses nothing and the overlap only repeats: for
    [0 <= overlap < chunkSize] the first chunk followed by every later chunk
    without its first [overlap] characters is the text again. *)
Theorem chunks_rebuild_text (value : string) (chunkSize overlap : Z) :
  (0 <= overlap < chunkSize)%Z ->
  exists chunks,
    (forall fuel,
       Z.to_nat (ceil_div (Z.of_nat (String.length value)) (chunkSize - overlap)) < fuel ->
       EmbeddingService.chunk_loop fuel value chunkSize overlap 0 [] = Returned chunks) /\
    without_overlap overlap chunks = value.
Proof.
  intros Hparams.
  set (n := Z.of_nat (String.length value)). set (step := (chunkSize - overlap)%Z).
  exists (chunks_from value chunkSize step 0 (Z.to_nat (ceil_div n step))).
  split.
  - intros fuel Hfuel.
    pose proof (chunk_loop_run value chunkSize overlap ltac:(lia) fuel 0 []) as Hrun.
    cbv zeta in Hrun. rewrite Z.sub_0_r in Hrun. by apply Hrun.
  - pose proof (ceil_div_bounds n step ltac:(subst step; lia)) as Hceil.
    destruct (Z.to_nat (ceil_div n step)) as [|count] eqn:Hcount.
    + cbn. assert (String.length value = 0) as Hlen by (subst n; nia).
      destruct value; [done | discriminate Hlen].
    + rewrite chunks_from_succ. cbn [without_overlap].
      pose proof (stripped_chunks value chunkSize overlap Hparams count (0 + step)%Z)
        as Htail.
      cbv zeta in Htail. fold n step in Htail.
      rewrite Htail.
      * rewrite js_substring_range by lia. fold n.
        replace (0 + step + overlap)%Z with (0 + chunkSize)%Z by (subst step; lia).
        rewrite sub_range_split by lia.
        unfold sub_range.
        replace (Z.to_nat (Z.min 0 n)) with 0%nat by lia.
        replace (Z.to_nat (n - Z.min 0 n)) with (String.length value) by (subst n; lia).
        apply substring_all.
      * subst step. lia.
      * replace (n - (0 + step))%Z with (n - step)%Z by lia.
        rewrite ceil_div_step by (subst step; lia). lia.
Qed.

Lemma chunks_rebuild_text_witness :
  exists chunks,
    (forall fuel,
       Z.to_nat (ceil_div (Z.of_nat (String.length "abcdefg")) (4 - 1)) < fuel ->
       EmbeddingService.chunk_loop fuel "abcdefg" 4 1 0 [] = Returned chunks) /\
    without_overlap 1 chunks = "abcdefg".
Proof. apply (chunks_rebuild_text "abcdefg" 4 1). lia. Defined.

(** ** The ranker: combined stores, vectors of magnitude zero *)

Lemma zero_vector_magnitude (n : nat) :
  PrimFloat.eqb (vectorUtils.magnitude (repeat 0%float n)) 0 = true.
Proof.
  unfold vectorUtils.magnitude, for_index.
  assert (forall (l : list nat) (v : list float),
             Forall (fun i => vectorUtils.at_index v i = 0%float) l ->
             fold_left (fun s i =>
                          (s + vectorUtils.at_index v i * vectorUtils.at_index v i)%float)
               l 0%float = 0%float) as Hsum.
  { intros l v Hl. induction Hl as [|i l Hi _ IH]; [done|].
    cbn [fold_left]. rewrite Hi. exact IH. }
  rewrite Hsum; [reflexivity|].
  rewrite repeat_length. apply Forall_forall. intros i Hi.
  apply elem_of_seq in Hi. unfold vectorUtils.at_index.
  revert i Hi. induction n as [|n IH]; intros i Hi; [lia|].
  destruct i as [|i]; [done|]. cbn. apply IH. lia.
Qed.

Section RankerMore.

Context {R : Type} (embedding : R -> option (list float)).

(** X13: ranking two stores put one after the other gives the matches of
    the first followed by the matches of the second. *)
Theorem findMostSimilar_append (q : list float) (first second : list R) :
  q <> [] -> first <> [] -> second <> [] ->
  exists found1 found2,
    EmbeddingService.findMostSimilar embedding q first = Returned (Some found1) /\
    EmbeddingService.findMostSimilar embedding q second = Returned (Some found2) /\
    EmbeddingService.findMostSimilar embedding q (first ++ second)
    = Returned (Some (found1 ++ found2)).
Proof.
  intros Hq Hfirst Hsecond.
  assert (forall {A} (l : list A), l <> [] -> Nat.eqb (length l) 0 = false) as Hlen.
  { intros A [|x l]; done. }
  eexists _, _. split; [|split].
  - apply findMostSimilar_nonempty; by apply Hlen.
  - apply findMostSimilar_nonempty; by apply Hlen.
  - rewrite findMostSimilar_nonempty.
    + by rewrite List.filter_app.
    + by apply Hlen.
    + apply Hlen. by destruct first.
Qed.

(** X14: vectors of magnitude zero match nothing: for a query vector of
    magnitude zero (such as the all-zero vector) the ranker returns the
    empty list whatever the store holds, and a record whose embedding has
    magnitude zero is never among the records it returns. *)
Theorem zero_magnitude_matches_nothing :
  (forall (q : list float) (stored : list R),
     q <> [] -> stored <> [] ->
     PrimFloat.eqb (vectorUtils.magnitude q) 0 = true ->
     EmbeddingService.findMostSimilar embedding q stored = Returned (Some [])) /\
  (forall (q : list float) (stored found : list R) (r : R) (e : list float),
     EmbeddingService.findMostSimilar embedding q stored = Returned (Some found) ->
     r ∈ found -> embedding r = Some e ->
     PrimFloat.eqb (vectorUtils.magnitude e) 0 = false) /\
  (forall n, PrimFloat.eqb (vectorUtils.magnitude (repeat 0%float n)) 0 = true).
Proof.
  split; [|split; [|apply zero_vector_magnitude]].
  - intros q stored Hq Hstored Hzero.
    rewrite findMostSimilar_nonempty; [|by destruct q | by destruct stored].
    do 2 f_equal. clear Hstored. induction stored as [|r stored IH]; [done|].
    cbn [List.filter]. unfold reaches_threshold at 1, similarity.
    destruct (embedding r) as [e|]; [|exact IH].
    rewrite Hzero, orb_true_r. cbn [orb].
    change (PrimFloat.leb EmbeddingService.SIMILARITY_THRESHOLD 0) with false.
    rewrite andb_false_r. exact IH.
  - intros q stored found r e Hrun Hr He.
    destruct (Nat.eqb (length q) 0) eqn:Hq.
    { unfold EmbeddingService.findMostSimilar in Hrun. by rewrite Hq in Hrun. }
    destruct (Nat.eqb (length stored) 0) eqn:Hs.
    { unfold EmbeddingService.findMostSimilar in Hrun. rewrite Hq, Hs in Hrun. done. }
    rewrite (findMostSimilar_nonempty _ _ _ Hq Hs) in Hrun. injection Hrun as <-.
    apply list_elem_of_In, filter_In in Hr as [_ Hreach].
    unfold reaches_threshold, similarity in Hreach. rewrite He in Hreach.
    destruct (PrimFloat.eqb (vectorUtils.magnitude e) 0); [|done].
    rewrite orb_true_r in Hreach.
    change (PrimFloat.leb EmbeddingService.SIMILARITY_THRESHOLD 0) with false in Hreach.
    by rewrite andb_false_r in Hreach.
Qed.

End RankerMore.

Lemma findMostSimilar_append_witness :
  exists found1 found2,
    EmbeddingService.findMostSimilar DocumentProcessorService.embedding
      [1%float; 0%float] [record_34] = Returned (Some found1) /\
    EmbeddingService.findMostSimilar DocumentProcessorService.embedding
      [1%float; 0%float] [record_10] = Returned (Some found2) /\
    EmbeddingService.findMostSimilar DocumentProcessorService.embedding
      [1%float; 0%float] ([record_34] ++ [record_10])
    = Returned (Some (found1 ++ found2)).
Proof.
  apply (findMostSimilar_append DocumentProcessorService.embedding
           [1%float; 0%float] [record_34] [record_10]); discriminate.
Defined.

Lemma zero_magnitude_matches_nothing_witness :
  EmbeddingService.findMostSimilar DocumentProcessorService.embedding
    [0%float; 0%float] [record_34; record_10] = Returned (Some []).
Proof.
  apply (zero_magnitude_matches_nothing DocumentProcessorService.embedding);
    [discriminate | discriminate | reflexivity].
Defined.

(** ** Search and ingestion: what fails, what is left behind *)

Ltac search_cases embed userQuery w :=
  unfold DocumentProcessorService.findRelevantContent, EmbeddingService.generateEmbedding;
  destruct (String.eqb userQuery EmptyString) eqn:?;
  [ cbn
  | unfold mbind at 1, M_bind at 1, try_catchM, EmbeddingService.call_embed, throw;
    destruct (embed userQuery) as [qv|message|] eqn:?;
    [ destruct (Nat.eqb (length qv) 0); cbn [fst snd];
      [ cbn
      | unfold mbind at 1, M_bind at 1; rewrite getAll_run by reflexivity;
        cbn [rows files logged];
        match goal with
        | |- context [Nat.eqb (length ?valid) 0] => destruct (Nat.eqb (length valid) 0) eqn:?
        end;
        [ cbn
        | unfold mbind at 1, M_bind at 1, lift;
          match goal with
          | |- context [EmbeddingService.findMostSimilar ?f ?q ?l] =>
              destruct (EmbeddingService.findMostSimilar f q l) as [[[|? ?]|]|?|]
          end; cbn ] ]
    | cbn
    | cbn ] ].

Lemma findRelevantContent_frame (embed : string -> Completion (list float))
    (userQuery : string) (w w' : World)
    (c : Completion (option DocumentProcessorService.SearchServiceResult)) :
  DocumentProcessorService.findRelevantContent embed userQuery w = (c, w') ->
  files w' = files w /\
  uuids_drawn w' = uuids_drawn w /\
  (calls w' = calls w \/
   calls w' = calls w ++ [Embed userQuery] \/
   calls w' = calls w ++ [Embed userQuery; ReadFile "embeddings.json"]).
Proof.
  search_cases embed userQuery w; intros [= <- <-];
    cbn; rewrite <- ?app_assoc; auto.
Qed.

(** X15: a search only reads: whatever the query, the provider's answer and
    the state of the files, [findRelevantContent] writes no file and draws
    no identifier; it calls the provider at most once and, only after that,
    reads the embeddings table at most once. *)
Theorem findRelevantContent_only_reads (embed : string -> Completion (list float))
    (userQuery : string) (w : World) :
  let w' := snd (DocumentProcessorService.findRelevantContent embed userQuery w) in
  files w' = files w /\
  uuids_drawn w' = uuids_drawn w /\
  (calls w' = calls w \/
   calls w' = calls w ++ [Embed userQuery] \/
   calls w' = calls w ++ [Embed userQuery; ReadFile "embeddings.json"]).
Proof.
  cbv zeta.
  destruct (DocumentProcessorService.findRelevantContent embed userQuery w)
    as [c w'] eqn:Hrun.
  cbn [snd]. by apply (findRelevantContent_frame embed userQuery w w' c).
Qed.

(** X16: when the provider fails on the query, the search throws the
    provider's message behind "Failed to generate embedding: " and has read
    no file. *)
Theorem findRelevantContent_provider_failure
    (embed : string -> Completion (list float)) (userQuery message : string) (w : World) :
  embed userQuery = Thrown message ->
  userQuery <> EmptyString ->
  DocumentProcessorService.findRelevantContent embed userQuery w =
    (Thrown ("Failed to generate embedding: " +:+ message), logged (Embed userQuery) w).
Proof.
  intros Hfail Hquery.
  unfold DocumentProcessorService.findRelevantContent, EmbeddingService.generateEmbedding.
  destruct (String.eqb userQuery "") eqn:E; [by apply String.eqb_eq in E|].
  unfold mbind at 1, M_bind at 1, try_catchM, EmbeddingService.call_embed.
  by rewrite Hfail.
Qed.

Lemma findRelevantContent_provider_failure_witness :
  DocumentProcessorService.findRelevantContent failing_embed "bc" empty_world =
    (Thrown ("Failed to generate embedding: " +:+ "quota"), logged (Embed "bc") empty_world).
Proof.
  apply (findRelevantContent_provider_failure failing_embed "bc" "quota" empty_world);
    [reflexivity | discriminate].
Defined.

Lemma main_run (embed : string -> Completion (list float)) (w : World) :
  Main.main embed w =
    (match fst (DocumentProcessorService.findRelevantContent embed
                  "Diamond Minimum Color" w) with
     | Unfinished => Unfinished
     | _ => Returned tt
     end,
     snd (DocumentProcessorService.findRelevantContent embed "Diamond Minimum Color" w)).
Proof.
  unfold Main.main, try_catchM. cbv zeta. unfold mbind at 1, M_bind at 1.
  by destruct (DocumentProcessorService.findRelevantContent embed _ w) as [[?|?|] ?].
Qed.

(** X17: [main] catches every error: whatever the provider does and whatever
    the files hold, it does not throw, and it writes no file. *)
Theorem main_never_throws (embed : string -> Completion (list float)) (w : World) :
  (forall message, fst (Main.main embed w) <> Thrown message) /\
  files (snd (Main.main embed w)) = files w.
Proof.
  rewrite main_run. cbn [fst snd].
  destruct (DocumentProcessorService.findRelevantContent embed "Diamond Minimum Color" w)
    as [c w'] eqn:Hrun.
  destruct (findRelevantContent_frame _ _ _ _ _ Hrun) as (Hfiles & _ & _).
  cbn [fst snd]. split; [|done]. by destruct c.
Qed.

Section IngestionMore.

Context {Buffer : Type}.
Variable embed : string -> Completion (list float).
Variable readFile : string -> Completion Buffer.
Variable pdfParse : Buffer -> Completion string.
Variable path_basename : string -> string.

(** X18: [processPdf] stores nothing when the file cannot be read, when it
    cannot be parsed, or when its text is white space only: it throws, with
    a message that tells the three cases apart, and leaves the world as it
    was; the provider is not called. *)
Theorem processPdf_early_failures (pdfFilePath : string) (w : World) :
  (forall message,
     readFile pdfFilePath = Thrown message ->
     DocumentProcessorService.processPdf embed readFile pdfParse path_basename
       pdfFilePath w
     = (Thrown ("Could not read PDF file: " +:+ message), w)) /\
  (forall fileBuffer message,
     readFile pdfFilePath = Returned fileBuffer ->
     pdfParse fileBuffer = Thrown message ->
     DocumentProcessorService.processPdf embed readFile pdfParse path_basename
       pdfFilePath w
     = (Thrown ("Could not parse PDF content: " +:+ message), w)) /\
  (forall fileBuffer text,
     readFile pdfFilePath = Returned fileBuffer ->
     pdfParse fileBuffer = Returned text ->
     trim text = EmptyString ->
     DocumentProcessorService.processPdf embed readFile pdfParse path_basename
       pdfFilePath w
     = (Thrown "PDF contains no text content.", w)).
Proof.
  split; [|split].
  - intros message Hread. unfold DocumentProcessorService.processPdf.
    unfold mbind at 1, M_bind at 1, try_catchM, lift. by rewrite Hread.
  - intros fileBuffer message Hread Hparse. unfold DocumentProcessorService.processPdf.
    unfold mbind at 1, M_bind at 1, try_catchM, lift. rewrite Hread.
    unfold mbind at 1, M_bind at 1. by rewrite Hparse.
  - intros fileBuffer text Hread Hparse Hblank.
    unfold DocumentProcessorService.processPdf.
    unfold mbind at 1, M_bind at 1, try_catchM, lift. rewrite Hread.
    unfold mbind at 1, M_bind at 1. rewrite Hparse, Hblank.
    by rewrite orb_true_r.
Qed.

(** The world once [processPdf] has stored the resource. *)
Lemma processPdf_after_insert (pdfFilePath : string) (fileBuffer : Buffer)
    (text : string) (w : World) :
  readFile pdfFilePath = Returned fileBuffer ->
  pdfParse fileBuffer = Returned text ->
  trim text <> EmptyString ->
  let resource :=
    JObj [("content", JStr text); ("sourceFile", JStr (path_basename pdfFilePath));
          ("id", JStr (uuid_source w (uuids_drawn w)))] in
  let w1 :=
    mkWorld (<["resources.json" := Json (JArr (rows w "resources" ++ [resource]))]> (files w))
      (uuid_source w) (S (uuids_drawn w))
      (calls w ++ [ReadFile "resources.json";
                   WriteFile "resources.json" (rows w "resources" ++ [resource])]) in
  DocumentProcessorService.processPdf embed readFile pdfParse path_basename pdfFilePath w
  = (chunkEmbeddings ← EmbeddingService.generateEmbeddings embed
       (S (String.length text)) text
       EmbeddingService.default_chunkSize EmbeddingService.default_overlap;
     if Nat.eqb (length chunkEmbeddings) 0 then
       mret {| DocumentProcessorService.resource := resource;
               DocumentProcessorService.embeddingsCount := 0 |}
     else
       insertedEmbeddings ← DatabaseAdapter.insertMany
         DocumentProcessorService.EMBEDDINGS_TABLE
         (JArr (map (DocumentProcessorService.embeddingRecordToInsert resource)
                  chunkEmbeddings));
       mret {| DocumentProcessorService.resource := resource;
               DocumentProcessorService.embeddingsCount := length insertedEmbeddings |})
      w1.
Proof.
  intros Hread Hparse Htrim. cbv zeta.
  unfold DocumentProcessorService.processPdf.
  unfold mbind at 1, M_bind at 1, try_catchM, lift. rewrite Hread.
  unfold mbind at 1, M_bind at 1. rewrite Hparse.
  rewrite (trim_blank_empty _ Htrim).
  unfold mbind at 1, M_bind at 1.
  rewrite insert_run by reflexivity. reflexivity.
Qed.

Lemma default_chunks_fuel (text : string) :
  length (default_chunks text) < S (String.length text).
Proof.
  unfold default_chunks, chunks_from. rewrite length_map, length_seq.
  pose proof (default_fuel_enough (String.length text)). lia.
Qed.

Lemma trim_nonempty (text : string) : trim text <> EmptyString -> text <> EmptyString.
Proof. by intros Htrim ->. Qed.


End IngestionMore.

Lemma processPdf_early_failures_witness :
  DocumentProcessorService.processPdf sample_embed sample_readFile
    (sample_pdfParse "   ") sample_basename "file.pdf" empty_world
  = (Thrown "PDF contains no text content.", empty_world).
Proof.
  destruct (processPdf_early_failures sample_embed sample_readFile
              (sample_pdfParse "   ") sample_basename "file.pdf" empty_world)
    as (_ & _ & Hblank).
  apply (Hblank tt "   "); reflexivity.
Defined.


(** ** From ingestion to search *)




Lemma embed_loop_returned (embed : string -> Completion (list float))
    (chunks : list string) (acc results : list (string * list float)) (w w' : World) :
  EmbeddingService.embed_loop embed chunks acc w = (Returned results, w') ->
  exists embs,
    Forall2 (fun chunk e => embed chunk = Returned e) chunks embs /\
    results = acc ++ zip chunks embs.
Proof.
  revert acc w. induction chunks as [|chunk chunks IH]; intros acc w.
  - cbn. intros [= <- <-]. exists []. split; [constructor | by rewrite app_nil_r].
  - cbn [EmbeddingService.embed_loop]. unfold mbind at 1, M_bind at 1.
    unfold EmbeddingService.call_embed.
    destruct (embed chunk) as [e|message|] eqn:He; [|done|done].
    intros Hrest. destruct (IH _ _ Hrest) as (embs & Hall & ->).
    exists (e :: embs). split; [by constructor|]. by rewrite <- app_assoc.
Qed.

Section IngestAndSearch.

Context {Buffer : Type}.
Variable embed : string -> Completion (list float).
Variable readFile : string -> Completion Buffer.
Variable pdfParse : Buffer -> Completion string.
Variable path_basename : string -> string.

(** What [processPdf] does when every step succeeds. *)
Lemma processPdf_run (pdfFilePath : string) (fileBuffer : Buffer) (text : string)
    (embs : list (list float)) (w : World) :
  readFile pdfFilePath = Returned fileBuffer ->
  pdfParse fileBuffer = Returned text ->
  trim text <> EmptyString ->
  Forall2 (fun chunk e => embed chunk = Returned e) (default_chunks text) embs ->
  let resourceId := uuid_source w (uuids_drawn w) in
  let records :=
    imap (fun i ce => stored_chunk resourceId ce (uuid_source w (S (uuids_drawn w) + i)))
      (zip (default_chunks text) embs) in
  exists resource w',
    DocumentProcessorService.processPdf embed readFile pdfParse path_basename
      pdfFilePath w
    = (Returned {| DocumentProcessorService.resource := resource;
                   DocumentProcessorService.embeddingsCount :=
                     length (default_chunks text) |}, w') /\
    get_prop resource "id" = Some (JStr resourceId) /\
    0 < length (default_chunks text) /\
    rows w' DocumentProcessorService.EMBEDDINGS_TABLE
    = rows w DocumentProcessorService.EMBEDDINGS_TABLE ++ records.
Proof.
  intros Hread Hparse Htrim Hall. cbv zeta.
  pose proof (trim_nonempty _ Htrim) as Htext.
  pose proof (default_chunks_nonempty text Htext) as Hchunks.
  pose proof (Forall2_length _ _ _ Hall) as Hlen.
  assert (length (zip (default_chunks text) embs) = length (default_chunks text)) as Hzip.
  { rewrite length_zip. lia. }
  assert (0 < length (default_chunks text)) as Hpos.
  { destruct (default_chunks text); [done | cbn; lia]. }
  rewrite (processPdf_after_insert embed _ _ _ _ _ _ _ Hread Hparse Htrim). cbv zeta.
  set (resource := JObj _).
  unfold mbind at 1, M_bind at 1.
  rewrite (generateEmbeddings_default_run embed text embs _ Htext Hall).
  destruct (Nat.eqb (length (zip (default_chunks text) embs)) 0) eqn:Hzero.
  { apply Nat.eqb_eq in Hzero. lia. }
  unfold mbind at 1, M_bind at 1.
  rewrite insertMany_run by reflexivity. cbv zeta.
  rewrite (records_to_insert_insertable resource (uuid_source w (uuids_drawn w)))
    by reflexivity.
  rewrite (with_ids_stored_chunks _ _ (uuid_source w (uuids_drawn w))) by reflexivity.
  cbn [uuid_source uuids_drawn files calls].
  set (records := imap _ (zip (default_chunks text) embs)).
  assert (length records = length (default_chunks text)) as Hrecords.
  { subst records. by rewrite length_imap. }
  destruct (Nat.ltb_spec 0 (length records)) as [_|Hno]; [|lia].
  exists resource. eexists. unfold mret, M_ret. rewrite Hrecords.
  split; [reflexivity|]. split; [reflexivity|]. split; [done|].
  unfold rows at 1. cbn [files]. rewrite lookup_insert_eq.
  f_equal. unfold rows. cbn [files]. by rewrite lookup_insert_ne.
Qed.


(** X21: whenever [processPdf] returns, the file was read and parsed to a
    text that is not blank, the resource it returns has an [id], and
    [embeddingsCount] is the number of chunks of the text, which is not
    zero: the return with a count of zero is never taken. *)
Theorem processPdf_count_positive (pdfFilePath : string) (w w' : World)
    (result : DocumentProcessorService.ProcessPdfResult) :
  DocumentProcessorService.processPdf embed readFile pdfParse path_basename pdfFilePath w
  = (Returned result, w') ->
  exists fileBuffer text id,
    readFile pdfFilePath = Returned fileBuffer /\
    pdfParse fileBuffer = Returned text /\
    trim text <> EmptyString /\
    get_prop (DocumentProcessorService.resource result) "id" = Some (JStr id) /\
    DocumentProcessorService.embeddingsCount result = length (default_chunks text) /\
    0 < DocumentProcessorService.embeddingsCount result.
Proof.
  intros Hrun.
  destruct (readFile pdfFilePath) as [fileBuffer|message|] eqn:Hread.
  2,3: revert Hrun; unfold DocumentProcessorService.processPdf;
       unfold mbind at 1, M_bind at 1, try_catchM, lift; by rewrite Hread.
  destruct (pdfParse fileBuffer) as [text|message|] eqn:Hparse.
  2,3: revert Hrun; unfold DocumentProcessorService.processPdf;
       unfold mbind at 1, M_bind at 1, try_catchM, lift; rewrite Hread;
       unfold mbind at 1, M_bind at 1; by rewrite Hparse.
  destruct (decide (trim text = EmptyString)) as [Hblank|Htrim].
  { revert Hrun. unfold DocumentProcessorService.processPdf.
    unfold mbind at 1, M_bind at 1, try_catchM, lift. rewrite Hread.
    unfold mbind at 1, M_bind at 1. rewrite Hparse, Hblank. by rewrite orb_true_r. }
  pose proof (trim_nonempty _ Htrim) as Htext.
  pose proof Hrun as Hsteps.
  rewrite (processPdf_after_insert embed _ _ _ _ _ _ _ Hread Hparse Htrim) in Hsteps.
  cbv zeta in Hsteps. unfold mbind at 1, M_bind at 1 in Hsteps.
  unfold EmbeddingService.default_chunkSize, EmbeddingService.default_overlap in Hsteps.
  rewrite (generateEmbeddings_chunked embed) in Hsteps
    by (done || apply default_chunks_fuel).
  change (500 - 50)%Z with 450%Z in Hsteps. fold (default_chunks text) in Hsteps.
  unfold try_catchM in Hsteps.
  destruct (EmbeddingService.embed_loop embed (default_chunks text) [] _)
    as [[results|message|] w2] eqn:Hloop; [|done|done].
  destruct (embed_loop_returned _ _ _ _ _ _ Hloop) as (embs & Hall & _).
  destruct (processPdf_run _ _ _ _ w Hread Hparse Htrim Hall)
    as (resource & w'' & Hrun' & Hid & Hpos & _).
  rewrite Hrun in Hrun'. injection Hrun' as -> _.
  exists fileBuffer, text, (uuid_source w (uuids_drawn w)). cbn. done.
Qed.

End IngestAndSearch.


Lemma processPdf_count_positive_witness :
  exists fileBuffer text id,
    sample_readFile "file.pdf" = Returned fileBuffer /\
    sample_pdfParse "some text" fileBuffer = Returned text /\
    trim text <> EmptyString /\
    get_prop (JObj [("content", JStr "some text"); ("sourceFile", JStr "file.pdf");
                    ("id", JStr (sample_uuid 0))]) "id" = Some (JStr id) /\
    1 = length (default_chunks text) /\
    0 < 1.
Proof.
  eapply (processPdf_count_positive sample_embed sample_readFile
            (sample_pdfParse "some text") sample_basename "file.pdf" empty_world _
            {| DocumentProcessorService.resource :=
                 JObj [("content", JStr "some text"); ("sourceFile", JStr "file.pdf");
                       ("id", JStr (sample_uuid 0))];
               DocumentProcessorService.embeddingsCount := 1 |}).
  vm_compute. reflexivity.
Defined.


